(** * Image metadata extractor: the binary metadata decoder

    A shallow embedding of the decoding core of
    [src/image_metadata_extractor.tsx]: the [DataView] byte reader, the
    TIFF/IFD walker, the JPEG and bare-TIFF container paths and the XMP packet
    scan.  The source file holds two near-duplicate copies of the component.
    The first copy (module-level helper functions, lines 293-520 and 583-650)
    is embedded at top level; the second copy (lines 1400-1633, every function
    a closure of the component) is embedded in [Module Copy2].

    JavaScript numbers are modelled as [Z]: every number the decoder computes
    is a sum or product of a few unsigned integers below [2^32], far inside
    the range where doubles are exact.  The one division (the rational tag
    type) is kept symbolic. *)

From Stdlib Require Import ZArith Lia Ascii String.
From Stdlib.Strings Require Import Byte.
From stdpp Require Import gmap strings list fin_maps.

Local Open Scope string_scope.
Local Open Scope list_scope.
Local Open Scope Z_scope.

(** ** Exceptions

    The only exception the decoder can raise is the [RangeError] of a
    [DataView] accessor reading outside the buffer. *)

Inductive result (A : Type) : Type :=
| Ok (a : A)
| RangeError.

Arguments Ok {A} a.
Arguments RangeError {A}.

Definition bindR {A B : Type} (r : result A) (k : A -> result B) : result B :=
  match r with
  | Ok a => k a
  | RangeError => RangeError
  end.

Notation "'let*' x ':=' e 'in' k" := (bindR e (fun x => k))
  (at level 10, x name, e at level 200, k at level 200).

(** ** The byte buffer: [DataView] *)

Abbreviation DataView := (list byte).

Definition byteLength (dataView : DataView) : Z := Z.of_nat (length dataView).

(** The byte stored at index [i]; only consulted at indices inside the view. *)
Definition byteAt (dataView : DataView) (i : Z) : Z :=
  match dataView !! Z.to_nat i with
  | Some b => Z.of_N (Byte.to_N b)
  | None => 0
  end.

(** The bounds check every [DataView] accessor performs: a negative index, or
    an index whose element would extend past the end, raises. *)
Definition inView (dataView : DataView) (byteOffset width : Z) : bool :=
  (0 <=? byteOffset) && (byteOffset + width <=? byteLength dataView).

Definition getUint8 (dataView : DataView) (byteOffset : Z) : result Z :=
  if inView dataView byteOffset 1 then Ok (byteAt dataView byteOffset)
  else RangeError.

Definition getUint16 (dataView : DataView) (byteOffset : Z) (littleEndian : bool)
  : result Z :=
  if inView dataView byteOffset 2 then
    let b0 := byteAt dataView byteOffset in
    let b1 := byteAt dataView (byteOffset + 1) in
    Ok (if littleEndian then b0 + 256 * b1 else 256 * b0 + b1)
  else RangeError.

Definition getUint32 (dataView : DataView) (byteOffset : Z) (littleEndian : bool)
  : result Z :=
  if inView dataView byteOffset 4 then
    let b0 := byteAt dataView byteOffset in
    let b1 := byteAt dataView (byteOffset + 1) in
    let b2 := byteAt dataView (byteOffset + 2) in
    let b3 := byteAt dataView (byteOffset + 3) in
    Ok (if littleEndian
        then b0 + 256 * b1 + 65536 * b2 + 16777216 * b3
        else 16777216 * b0 + 65536 * b1 + 256 * b2 + b3)
  else RangeError.

(** [String.fromCharCode] at a code unit below 256. *)
Definition fromCharCode (c : Z) : ascii := ascii_of_N (Z.to_N c).

(** ** Decoded values

    A tag value is [null], a number or a string.  [JQuot n d] stands for the
    double [n / d] computed from two integers with [d] non-zero. *)

Inductive JsValue : Type :=
| JNull
| JBool (b : bool)
| JNum (n : Z)
| JQuot (n d : Z)
| JStr (s : string).

(** ** Static tables *)

Definition EXIF_TAGS : gmap Z string :=
  list_to_map
    [ (0x010F, "Make");
      (0x0110, "Model");
      (0x0112, "Orientation");
      (0x011A, "XResolution");
      (0x011B, "YResolution");
      (0x0128, "ResolutionUnit");
      (0x0132, "DateTime");
      (0x013B, "Artist");
      (0x0213, "YCbCrPositioning");
      (0x8769, "ExifIFDPointer");
      (0x8825, "GPSIFDPointer") ].

Definition TYPE_SIZES : gmap Z Z :=
  list_to_map
    [ (1, 1); (2, 1); (3, 2); (4, 4); (5, 8); (6, 1);
      (7, 1); (8, 2); (9, 4); (10, 8); (11, 4); (12, 8) ].

(** [TYPE_SIZES[type] || 1]: a missing (or zero) size falls back to 1. *)
Definition getTypeSize (type : Z) : Z :=
  match TYPE_SIZES !! type with
  | Some n => if n =? 0 then 1 else n
  | None => 1
  end.

(** ** Tag value decoding (first copy, lines 298-371) *)

Definition calculateActualOffset (dataView : DataView)
    (valueOffset type count tiffOffset : Z) (isBigEndian : bool) : result Z :=
  if getTypeSize type * count >? 4 then
    let* p := (if isBigEndian then getUint32 dataView valueOffset false
               else getUint32 dataView valueOffset true) in
    Ok (tiffOffset + p)
  else Ok valueOffset.

Definition readUint16Value (dataView : DataView) (offset : Z) (isBigEndian : bool)
  : result Z :=
  if isBigEndian then getUint16 dataView offset false
  else getUint16 dataView offset true.

Definition readUint32Value (dataView : DataView) (offset : Z) (isBigEndian : bool)
  : result Z :=
  if isBigEndian then getUint32 dataView offset false
  else getUint32 dataView offset true.

(** The body of the [for] loop of [readAsciiString], run for the [n]
    iterations that remain, from index [i] with [str] accumulated so far. *)
Fixpoint readAsciiString_loop (dataView : DataView) (offset : Z) (n : nat)
    (i : Z) (str : string) : result string :=
  match n with
  | O => Ok str
  | S n' =>
      let* c := getUint8 dataView (offset + i) in
      readAsciiString_loop dataView offset n' (i + 1)
        (str ++ String (fromCharCode c) EmptyString)%string
  end.

Definition readAsciiString (dataView : DataView) (offset count : Z)
  : result string :=
  readAsciiString_loop dataView offset (Z.to_nat (Z.min (count - 1) 100)) 0 EmptyString.

Definition readRationalValue (dataView : DataView) (offset : Z)
    (isBigEndian : bool) : result JsValue :=
  let* numerator := readUint32Value dataView offset isBigEndian in
  let* denominator := readUint32Value dataView (offset + 4) isBigEndian in
  Ok (if negb (denominator =? 0) then JQuot numerator denominator else JNum 0).

Definition getTagValue (dataView : DataView)
    (valueOffset type count tiffOffset : Z) (isBigEndian : bool)
  : result JsValue :=
  let* actualOffset := calculateActualOffset dataView valueOffset type count
                         tiffOffset isBigEndian in
  match type with
  | 1 => let* v := getUint8 dataView actualOffset in Ok (JNum v)
  | 2 => let* s := readAsciiString dataView actualOffset count in Ok (JStr s)
  | 3 => let* v := readUint16Value dataView actualOffset isBigEndian in Ok (JNum v)
  | 4 => let* v := readUint32Value dataView actualOffset isBigEndian in Ok (JNum v)
  | 5 => readRationalValue dataView actualOffset isBigEndian
  | _ => Ok JNull
  end.

(** ** The mutable result object and exception propagation

    [exifData] is the JavaScript object the walker writes into.  It is
    threaded as explicit state, and a raised exception keeps the writes made
    before it, as the [catch] blocks of the source observe them.

    [processed] is ghost state: the entry offsets at which the body of the
    walker's loop was entered, in order.  No decoded value depends on it. *)

Record State : Type := mkState {
  exifData : gmap string JsValue;
  processed : list Z
}.

Definition newState : State := mkState ∅ [].

Definition setProp (key : string) (value : JsValue) (st : State) : State :=
  mkState (<[key := value]> (exifData st)) (processed st).

Definition enterEntry (tagOffset : Z) (st : State) : State :=
  mkState (exifData st) (processed st ++ [tagOffset]).

Inductive Outcome : Type :=
| Normal (st : State)
| Raised (st : State).

Definition finalState (o : Outcome) : State :=
  match o with
  | Normal st => st
  | Raised st => st
  end.

(** Evaluate a read inside a state-passing procedure: a [RangeError] leaves
    the procedure with the state reached so far. *)
Definition tryRead {A : Type} (r : result A) (k : A -> State -> Outcome)
  : State -> Outcome :=
  fun st => match r with
            | Ok a => k a st
            | RangeError => Raised st
            end.

Notation "'let!' x ':=' r 'in' k" := (tryRead r (fun x => k))
  (at level 10, x name, r at level 200, k at level 200).

(** [try { body } catch (error) { exifData.error = message }] *)
Definition catchError (message : string) (o : Outcome) : State :=
  match o with
  | Normal st => st
  | Raised st => setProp "error" (JStr message) st
  end.

(** ** The IFD walker (first copy, lines 374-418) *)

Definition processIfdEntry (dataView : DataView) (tagOffset tiffOffset : Z)
    (isBigEndian : bool) : State -> Outcome :=
  fun st0 =>
  (let! tag := (if isBigEndian then getUint16 dataView tagOffset false
                else getUint16 dataView tagOffset true) in
   let! type := (if isBigEndian then getUint16 dataView (tagOffset + 2) false
                 else getUint16 dataView (tagOffset + 2) true) in
   let! count := (if isBigEndian then getUint32 dataView (tagOffset + 4) false
                  else getUint32 dataView (tagOffset + 4) true) in
   fun st =>
     (* [if (EXIF_TAGS[tag])]: every name of the table is a non-empty
        string, hence truthy *)
     match EXIF_TAGS !! tag with
     | Some name =>
         (* try { ... } catch (error) { console.warn(...) } *)
         match getTagValue dataView (tagOffset + 8) type count tiffOffset
                 isBigEndian with
         | Ok value => Normal (setProp name value st)
         | RangeError => Normal st
         end
     | None => Normal st
     end) (enterEntry tagOffset st0).

(** The [for] loop of [parseIfd] with [n] iterations left, at index [i]. *)
Fixpoint parseIfd_loop (dataView : DataView) (ifdOffset tiffOffset : Z)
    (isBigEndian : bool) (n : nat) (i : Z) (st : State) : Outcome :=
  match n with
  | O => Normal st
  | S n' =>
      let tagOffset := ifdOffset + 2 + i * 12 in
      match processIfdEntry dataView tagOffset tiffOffset isBigEndian st with
      | Normal st' =>
          parseIfd_loop dataView ifdOffset tiffOffset isBigEndian n' (i + 1) st'
      | Raised st' => Raised st'
      end
  end.

Definition parseIfd (dataView : DataView) (ifdOffset tiffOffset : Z)
    (isBigEndian : bool) : State -> Outcome :=
  let! tagCount := (if isBigEndian then getUint16 dataView ifdOffset false
                    else getUint16 dataView ifdOffset true) in
  parseIfd_loop dataView ifdOffset tiffOffset isBigEndian
    (Z.to_nat (Z.min tagCount 50)) 0.

(** ** The JPEG path (first copy, lines 421-459) *)

(** [a && b] on reads that may raise: [b] is evaluated only when [a] holds. *)
Definition andThen (a : result bool) (b : result bool) : result bool :=
  let* x := a in if x then b else Ok false.

Definition isByte (dataView : DataView) (i expected : Z) : result bool :=
  let* b := getUint8 dataView i in Ok (b =? expected).

(** The signature test [getUint32(h) === 0x45786966 && getUint16(h + 4) === 0]. *)
Definition exifSignatureAt (dataView : DataView) (exifHeaderOffset : Z)
  : result bool :=
  andThen (let* w := getUint32 dataView exifHeaderOffset false in
           Ok (w =? 0x45786966))
          (let* z := getUint16 dataView (exifHeaderOffset + 4) false in
           Ok (z =? 0x0000)).

Definition markerAt (dataView : DataView) (i second : Z) : result bool :=
  andThen (isByte dataView i 0xFF) (isByte dataView (i + 1) second).

Fixpoint findExifMarker_loop (dataView : DataView) (n : nat) (i : Z) : result Z :=
  match n with
  | O => Ok (-1)
  | S n' =>
      let* m := markerAt dataView i 0xE1 in
      if m then
        let exifHeaderOffset := i + 4 in
        let* sig := exifSignatureAt dataView exifHeaderOffset in
        if sig then Ok exifHeaderOffset
        else findExifMarker_loop dataView n' (i + 1)
      else findExifMarker_loop dataView n' (i + 1)
  end.

Definition findExifMarker (dataView : DataView) : result Z :=
  findExifMarker_loop dataView (Z.to_nat (byteLength dataView - 1)) 0.

Definition byteOrderName (isBigEndian : bool) : string :=
  if isBigEndian then "Big Endian" else "Little Endian".

(** The statements of [extractExifData] that follow a successful search. *)
Definition decodeExifAt (dataView : DataView) (exifHeaderOffset : Z)
  : State -> Outcome :=
  let tiffOffset := exifHeaderOffset + 6 in
  let! marker := getUint16 dataView tiffOffset false in
  let isBigEndian := marker =? 0x4D4D in
  fun st =>
    (let! p := (if isBigEndian then getUint32 dataView (tiffOffset + 4) false
                else getUint32 dataView (tiffOffset + 4) true) in
     let ifd0Offset := tiffOffset + p in
     parseIfd dataView ifd0Offset tiffOffset isBigEndian)
    (setProp "byteOrder" (JStr (byteOrderName isBigEndian)) st).

Definition extractExifData_state (dataView : DataView) : State :=
  catchError "Failed to parse EXIF data"
    ((let! exifHeaderOffset := findExifMarker dataView in
      if negb (exifHeaderOffset =? -1)
      then decodeExifAt dataView exifHeaderOffset
      else Normal) newState).

Definition extractExifData (dataView : DataView) : gmap string JsValue :=
  exifData (extractExifData_state dataView).

(** ** The bare TIFF path (first copy, lines 619-650) *)

Definition tiffByteOrderName (isBigEndian : bool) : string :=
  if isBigEndian then "Big Endian (MM)" else "Little Endian (II)".

Definition extractTiffExifData_state (dataView : DataView) : State :=
  catchError "Failed to parse TIFF EXIF data"
    ((let! byteOrder := getUint16 dataView 0 false in
      let isBigEndian := byteOrder =? 0x4D4D in
      fun st =>
        (let! magicNumber := (if isBigEndian then getUint16 dataView 2 false
                              else getUint16 dataView 2 true) in
         if magicNumber =? 42 then
           fun st' =>
             (let! ifd0Offset := (if isBigEndian then getUint32 dataView 4 false
                                  else getUint32 dataView 4 true) in
              parseIfd dataView ifd0Offset 0 isBigEndian)
             (setProp "format" (JStr "Valid TIFF") st')
         else
           fun st' =>
             Normal (setProp "error" (JStr "Invalid TIFF magic number") st'))
        (setProp "byteOrder" (JStr (tiffByteOrderName isBigEndian)) st))
     newState).

Definition extractTiffExifData (dataView : DataView) : gmap string JsValue :=
  exifData (extractTiffExifData_state dataView).

(** ** The second copy of the decoder (lines 1400-1633)

    In the second copy every helper is a closure of the component and the
    bodies of [calculateActualOffset], [readAsciiString], [readRationalValue],
    [processIfdEntry] and [findExifMarker] are written out in place. *)

Module Copy2.

Definition getTypeSize (type : Z) : Z :=
  let sizes := TYPE_SIZES in
  match sizes !! type with
  | Some n => if n =? 0 then 1 else n
  | None => 1
  end.

Definition getTagValue (dataView : DataView)
    (valueOffset type count tiffOffset : Z) (isBigEndian : bool)
  : result JsValue :=
  let* actualOffset :=
    (if getTypeSize type * count >? 4 then
       let* p := (if isBigEndian then getUint32 dataView valueOffset false
                  else getUint32 dataView valueOffset true) in
       Ok (tiffOffset + p)
     else Ok valueOffset) in
  match type with
  | 1 => let* v := getUint8 dataView actualOffset in Ok (JNum v)
  | 2 =>
      let* str := readAsciiString_loop dataView actualOffset
                    (Z.to_nat (Z.min (count - 1) 100)) 0 EmptyString in
      Ok (JStr str)
  | 3 =>
      let* v := (if isBigEndian then getUint16 dataView actualOffset false
                 else getUint16 dataView actualOffset true) in
      Ok (JNum v)
  | 4 =>
      let* v := (if isBigEndian then getUint32 dataView actualOffset false
                 else getUint32 dataView actualOffset true) in
      Ok (JNum v)
  | 5 =>
      let* numerator :=
        (if isBigEndian then getUint32 dataView actualOffset false
         else getUint32 dataView actualOffset true) in
      let* denominator :=
        (if isBigEndian then getUint32 dataView (actualOffset + 4) false
         else getUint32 dataView (actualOffset + 4) true) in
      Ok (if negb (denominator =? 0) then JQuot numerator denominator
          else JNum 0)
  | _ => Ok JNull
  end.

Fixpoint parseIfd_loop (dataView : DataView) (ifdOffset tiffOffset : Z)
    (isBigEndian : bool) (n : nat) (i : Z) (st0 : State) : Outcome :=
  match n with
  | O => Normal st0
  | S n' =>
      let tagOffset := ifdOffset + 2 + i * 12 in
      (let! tag := (if isBigEndian then getUint16 dataView tagOffset false
                    else getUint16 dataView tagOffset true) in
       let! type := (if isBigEndian then getUint16 dataView (tagOffset + 2) false
                     else getUint16 dataView (tagOffset + 2) true) in
       let! count := (if isBigEndian then getUint32 dataView (tagOffset + 4) false
                      else getUint32 dataView (tagOffset + 4) true) in
       fun st =>
         let exifTags := EXIF_TAGS in
         parseIfd_loop dataView ifdOffset tiffOffset isBigEndian n' (i + 1)
           match exifTags !! tag with
           | Some name =>
               match getTagValue dataView (tagOffset + 8) type count
                       tiffOffset isBigEndian with
               | Ok value => setProp name value st
               | RangeError => st
               end
           | None => st
           end) (enterEntry tagOffset st0)
  end.

Definition parseIfd (dataView : DataView) (ifdOffset tiffOffset : Z)
    (isBigEndian : bool) : State -> Outcome :=
  let! tagCount := (if isBigEndian then getUint16 dataView ifdOffset false
                    else getUint16 dataView ifdOffset true) in
  parseIfd_loop dataView ifdOffset tiffOffset isBigEndian
    (Z.to_nat (Z.min tagCount 50)) 0.

(** The body of the [if] that follows a marker match at [i]; the loop is left
    by [break] whatever the signature test says. *)
Definition decodeSegmentAt (dataView : DataView) (i : Z) : State -> Outcome :=
  let! segmentLength := getUint16 dataView (i + 2) false in
  let exifHeaderOffset := i + 4 in
  let! sig := exifSignatureAt dataView exifHeaderOffset in
  if sig then
    let tiffOffset := exifHeaderOffset + 6 in
    let! marker := getUint16 dataView tiffOffset false in
    let isBigEndian := marker =? 0x4D4D in
    fun st =>
      (let! p := (if isBigEndian then getUint32 dataView (tiffOffset + 4) false
                  else getUint32 dataView (tiffOffset + 4) true) in
       let ifd0Offset := tiffOffset + p in
       parseIfd dataView ifd0Offset tiffOffset isBigEndian)
      (setProp "byteOrder" (JStr (byteOrderName isBigEndian)) st)
  else Normal.

Fixpoint extractExifData_loop (dataView : DataView) (n : nat) (i : Z)
  : State -> Outcome :=
  match n with
  | O => Normal
  | S n' =>
      let! m := markerAt dataView i 0xE1 in
      if m then decodeSegmentAt dataView i
      else extractExifData_loop dataView n' (i + 1)
  end.

Definition extractExifData_state (dataView : DataView) : State :=
  catchError "Failed to parse EXIF data"
    (extractExifData_loop dataView (Z.to_nat (byteLength dataView - 1)) 0
       newState).

Definition extractExifData (dataView : DataView) : gmap string JsValue :=
  exifData (extractExifData_state dataView).

Definition extractTiffExifData_state (dataView : DataView) : State :=
  catchError "Failed to parse TIFF EXIF data"
    ((let! byteOrder := getUint16 dataView 0 false in
      let isBigEndian := byteOrder =? 0x4D4D in
      fun st =>
        (let! magicNumber := (if isBigEndian then getUint16 dataView 2 false
                              else getUint16 dataView 2 true) in
         if magicNumber =? 42 then
           fun st' =>
             (let! ifd0Offset := (if isBigEndian then getUint32 dataView 4 false
                                  else getUint32 dataView 4 true) in
              parseIfd dataView ifd0Offset 0 isBigEndian)
             (setProp "format" (JStr "Valid TIFF") st')
         else
           fun st' =>
             Normal (setProp "error" (JStr "Invalid TIFF magic number") st'))
        (setProp "byteOrder" (JStr (tiffByteOrderName isBigEndian)) st))
     newState).

Definition extractTiffExifData (dataView : DataView) : gmap string JsValue :=
  exifData (extractTiffExifData_state dataView).

End Copy2.

(** ** JavaScript string primitives used by the XMP scan *)

Module JS.

(** [s.indexOf(searchString)], scanning [s] from position [i]: the index of
    the first occurrence, or [-1]. *)
Fixpoint indexOf_from (s searchString : string) (i : Z) : Z :=
  if String.prefix searchString s then i
  else match s with
       | EmptyString => -1
       | String _ s' => indexOf_from s' searchString (i + 1)
       end.

Definition indexOf (s searchString : string) : Z := indexOf_from s searchString 0.

(** [s.substring(start, end)]: both indices are clamped to [0, length] and
    swapped when [start] exceeds [end]. *)
Definition substring (s : string) (start finish : Z) : string :=
  let len := Z.of_nat (String.length s) in
  let intStart := Z.min (Z.max start 0) len in
  let intEnd := Z.min (Z.max finish 0) len in
  let from := Z.min intStart intEnd in
  let to := Z.max intStart intEnd in
  String.substring (Z.to_nat from) (Z.to_nat (to - from)) s.

(** Case folding of the [i] flag.  On code units below 256 only the ASCII
    letters have a case partner that the patterns below can name. *)
Definition foldCase (c : ascii) : ascii :=
  let n := nat_of_ascii c in
  if ((65 <=? n)%nat && (n <=? 90)%nat)%bool then ascii_of_nat (n + 32) else c.

(** Match the literal [pat] at the head of [s], ignoring case; on success the
    rest of [s]. *)
Fixpoint matchLiteral (pat s : string) : option string :=
  match pat with
  | EmptyString => Some s
  | String p pat' =>
      match s with
      | String c s' =>
          if Ascii.eqb (foldCase p) (foldCase c) then matchLiteral pat' s'
          else None
      | EmptyString => None
      end
  end.

(** The longest prefix of [s] free of [stop], and what follows it. *)
Fixpoint spanUntil (stop : ascii) (s : string) : string * string :=
  match s with
  | EmptyString => (EmptyString, EmptyString)
  | String c s' =>
      if Ascii.eqb c stop then (EmptyString, s)
      else let '(run, rest) := spanUntil stop s' in (String c run, rest)
  end.

(** One attempt of [/<dc:NAME[^>]*>([^<]+)<\/dc:NAME>/i] at the head of [s].
    A run [[^>]*] must be followed by [>] and the capture [[^<]+] by [<], so
    only the longest run of each can lead to a match and no backtracking into
    them is needed. *)
Definition matchElementHere (name s : string) : option string :=
  match matchLiteral ("<dc:" ++ name)%string s with
  | Some r1 =>
      let '(_, r2) := spanUntil ">" r1 in
      match r2 with
      | String _ r3 =>
          let '(capture, r4) := spanUntil "<" r3 in
          match capture with
          | EmptyString => None
          | _ =>
              match matchLiteral ("</dc:" ++ name ++ ">")%string r4 with
              | Some _ => Some capture
              | None => None
              end
          end
      | EmptyString => None
      end
  | None => None
  end.

(** [regex.exec(s)]: the first capture group of the leftmost match. *)
Fixpoint execElement (name s : string) : option string :=
  match matchElementHere name s with
  | Some capture => Some capture
  | None =>
      match s with
      | EmptyString => None
      | String _ s' => execElement name s'
      end
  end.

End JS.

Definition XMP_TITLE_REGEX_exec : string -> option string := JS.execElement "title".
Definition XMP_CREATOR_REGEX_exec : string -> option string := JS.execElement "creator".

(** ** The XMP packet scan (first copy, lines 471-520 and 604-617) *)

Definition extractXmpMetadata (xmpContent : string) : gmap string JsValue :=
  let xmpData : gmap string JsValue := ∅ in
  let xmpData :=
    match XMP_TITLE_REGEX_exec xmpContent with
    | Some title => <["title" := JStr title]> xmpData
    | None => xmpData
    end in
  match XMP_CREATOR_REGEX_exec xmpContent with
  | Some creator => <["creator" := JStr creator]> xmpData
  | None => xmpData
  end.

(** [Object.assign(target, source)]: the properties of [source] win. *)
Definition Object_assign (target source : gmap string JsValue)
  : gmap string JsValue := source ∪ target.

Definition processXmpPacket (fileString : string) : gmap string JsValue :=
  let xmpData : gmap string JsValue := ∅ in
  let xmpStart := JS.indexOf fileString "<?xpacket begin=" in
  let xmpEnd := JS.indexOf fileString "<?xpacket end=" in
  if negb (xmpStart =? -1) && negb (xmpEnd =? -1) then
    let xmpContent := JS.substring fileString xmpStart (xmpEnd + 20) in
    let truncatedContent := JS.substring xmpContent 0 500 in
    let xmpData := <["rawXMP" := JStr (truncatedContent ++ "...")%string]> xmpData in
    let xmpData := <["detected" := JBool true]> xmpData in
    let extractedMetadata := extractXmpMetadata xmpContent in
    Object_assign xmpData extractedMetadata
  else
    let xmpData := <["detected" := JBool false]> xmpData in
    <["note" := JStr "No XMP packet found in image"]> xmpData.

Fixpoint convertBufferToString_loop (uint8Array : DataView) (n : nat) (i : Z)
    (fileString : string) : string :=
  match n with
  | O => fileString
  | S n' =>
      convertBufferToString_loop uint8Array n' (i + 1)
        (fileString ++ String (fromCharCode (byteAt uint8Array i)) EmptyString)%string
  end.

Definition convertBufferToString (arrayBuffer : DataView) : string :=
  let searchLength := Z.min (byteLength arrayBuffer) 65536 in
  convertBufferToString_loop arrayBuffer (Z.to_nat searchLength) 0 EmptyString.

(** Neither step can raise, so the [catch] of [extractXmpData] is dead. *)
Definition extractXmpData (arrayBuffer : DataView) : gmap string JsValue :=
  let xmpData : gmap string JsValue := ∅ in
  let fileString := convertBufferToString arrayBuffer in
  let processedXmpData := processXmpPacket fileString in
  Object_assign xmpData processedXmpData.

(** ** Vocabulary of the properties *)

(** The type codes the value decoder has a case for. *)
Definition handledType (type : Z) : Prop :=
  type = 1 \/ type = 2 \/ type = 3 \/ type = 4 \/ type = 5.

(** The offsets of the [k] IFD entries that follow entry [i]: entry [j]
    starts [2 + 12 * j] bytes after the IFD offset. *)
Definition entryOffsets (ifdOffset i : Z) (k : nat) : list Z :=
  (fun j => ifdOffset + 2 + j * 12) <$> seqZ i (Z.of_nat k).

(** ** Sample buffers *)

(** A little-endian TIFF file whose IFD0 holds one entry, [Make], of type
    ASCII and count 5, stored at offset 26 as [ACME] and a NUL. *)
Definition tiffAcme : DataView :=
  [x49; x49; x2a; x00; x08; x00; x00; x00;
   x01; x00;
   x0f; x01; x02; x00; x05; x00; x00; x00; x1a; x00; x00; x00;
   x00; x00; x00; x00;
   x41; x43; x4d; x45; x00].

(** A big-endian TIFF header with magic number 43. *)
Definition tiffBadMagic : DataView :=
  [x4d; x4d; x00; x2b; x00; x00; x00; x08].

(** A four-byte little-endian pointer to offset 4, then one hundred [A]. *)
Definition asciiRun : DataView :=
  [x04; x00; x00; x00] ++ replicate 100 x41.

(** A little-endian TIFF file cut off after the count field of its single
    entry: tag [Make], type 7, count 5, and no value field. *)
Definition tiffCutEntry : DataView :=
  [x49; x49; x2a; x00; x08; x00; x00; x00;
   x01; x00;
   x0f; x01; x07; x00; x05; x00; x00; x00].

(** Two unsigned 32-bit values, 3 and 4, big-endian. *)
Definition rationalThreeQuarters : DataView :=
  [x00; x00; x00; x03; x00; x00; x00; x04].

(** Two unsigned 32-bit values, 3 and 0, big-endian. *)
Definition rationalZeroDen : DataView :=
  [x00; x00; x00; x03; x00; x00; x00; x00].

(** A little-endian TIFF file whose IFD0 declares three entries and holds
    one: [Make], ASCII, count 2, stored inline as [A] and a NUL. *)
Definition tiffThreeDeclared : DataView :=
  [x49; x49; x2a; x00; x08; x00; x00; x00;
   x03; x00;
   x0f; x01; x02; x00; x02; x00; x00; x00; x41; x00; x00; x00].

(** A JPEG stream whose first [0xFF 0xE1] segment carries the Exif signature
    followed by a TIFF sub-stream with the byte-order marker [XX], magic 42,
    IFD0 at 8 and one entry: [Make], ASCII, count 2, inline [A] and a NUL. *)
Definition jpegOddMarker : DataView :=
  [xff; xe1; x00; x00; x45; x78; x69; x66; x00; x00;
   x58; x58; x2a; x00; x08; x00; x00; x00;
   x01; x00;
   x0f; x01; x02; x00; x02; x00; x00; x00; x41; x00; x00; x00].

(** The names of the tag registry. *)
Definition registryNames : list string :=
  [ "Make"; "Model"; "Orientation"; "XResolution"; "YResolution";
    "ResolutionUnit"; "DateTime"; "Artist"; "YCbCrPositioning";
    "ExifIFDPointer"; "GPSIFDPointer" ].

(** [i] indexes an occurrence of the marker sequence [0xFF 0xE1]. *)
Definition markerIndex (dataView : DataView) (i : Z) : Prop :=
  0 <= i /\ i + 1 < byteLength dataView /\
  byteAt dataView i = 0xFF /\ byteAt dataView (i + 1) = 0xE1.

(** [i] indexes the first occurrence of the marker sequence. *)
Definition firstMarker (dataView : DataView) (i : Z) : Prop :=
  markerIndex dataView i /\ forall j, j < i -> ~ markerIndex dataView j.

(** The six bytes at [h] lie inside the buffer and spell [Exif], NUL, NUL. *)
Definition exifSignatureBytes (dataView : DataView) (h : Z) : Prop :=
  inView dataView h 6 = true /\
  byteAt dataView h = 0x45 /\ byteAt dataView (h + 1) = 0x78 /\
  byteAt dataView (h + 2) = 0x69 /\ byteAt dataView (h + 3) = 0x66 /\
  byteAt dataView (h + 4) = 0 /\ byteAt dataView (h + 5) = 0.

(** A JPEG stream that ends right after a [0xFF 0xE1] marker and its length. *)
Definition jpegCutSegment : DataView := [xff; xd8; xff; xe1; x00; x10].

(** A JPEG stream with two [0xFF 0xE1] segments: the first carries an XMP
    style payload [http], the second the Exif signature and a little-endian
    TIFF sub-stream whose IFD0 holds [Make], ASCII, count 2, inline [A]. *)
Definition jpegTwoSegments : DataView :=
  [xff; xd8;
   xff; xe1; x00; x08; x68; x74; x74; x70; x00; x00;
   xff; xe1; x00; x20; x45; x78; x69; x66; x00; x00;
   x49; x49; x2a; x00; x08; x00; x00; x00;
   x01; x00;
   x0f; x01; x02; x00; x02; x00; x00; x00; x41; x00; x00; x00].

(** The two XMP packet delimiters. *)
Definition xpacketBegin : string := "<?xpacket begin=".
Definition xpacketEnd : string := "<?xpacket end=".

(** [needle] occurs in [s] at index [i]. *)
Definition occursAt (needle s : string) (i : nat) : Prop :=
  exists before after : string,
    s = (before ++ needle ++ after)%string /\ String.length before = i.

(** [i] is the index of the first occurrence of [needle] in [s]. *)
Definition firstOccurrence (needle s : string) (i : nat) : Prop :=
  occursAt needle s i /\ forall j, (j < i)%nat -> ~ occursAt needle s j.

(** The text [<?xpacket end=<?xpacket begin=]: the end delimiter, then the
    begin delimiter. *)
Definition xmpReversed : DataView :=
  list_byte_of_string "<?xpacket end=<?xpacket begin=".

(** A well-formed packet between two bytes of padding. *)
Definition xmpPacket : DataView :=
  list_byte_of_string "ab<?xpacket begin='x'?><dc:title>T</dc:title><?xpacket end='w'?>cd".

(** ** The IPTC presence scan (first copy, lines 461-469 and 583-602) *)

(** [a || b] on reads that may raise: [b] is evaluated only when [a] fails. *)
Definition orElse (a b : result bool) : result bool :=
  let* x := a in if x then Ok true else b.

Fixpoint findIptcMarkers_loop (dataView : DataView) (n : nat) (i : Z)
  : result bool :=
  match n with
  | O => Ok false
  | S n' =>
      let* m := orElse (markerAt dataView i 0xED) (markerAt dataView i 0xE2) in
      if m then Ok true else findIptcMarkers_loop dataView n' (i + 1)
  end.

Definition findIptcMarkers (dataView : DataView) : result bool :=
  findIptcMarkers_loop dataView
    (Z.to_nat (Z.min (byteLength dataView - 1) 32768)) 0.

Definition iptcDetectedNote : string :=
  "IPTC data detected but requires specialized parser for full extraction".

Definition extractIptcData (dataView : DataView) : gmap string JsValue :=
  let iptcData : gmap string JsValue := ∅ in
  match findIptcMarkers dataView with
  | Ok hasIptcMarkers =>
      if hasIptcMarkers then
        <["note" := JStr iptcDetectedNote]> (<["detected" := JBool true]> iptcData)
      else
        <["note" := JStr "No IPTC data found"]>
          (<["detected" := JBool false]> iptcData)
  | RangeError => <["error" := JStr "Failed to parse IPTC data"]> iptcData
  end.

(** ** The IPTC and XMP scans of the second copy (lines 1537-1600) *)

(** JavaScript truthiness of a property that may be missing. *)
Definition truthy (v : option JsValue) : bool :=
  match v with
  | None => false
  | Some JNull => false
  | Some (JBool b) => b
  | Some (JNum n) => negb (n =? 0)
  | Some (JQuot n _) => negb (n =? 0)
  | Some (JStr s) => negb (String.eqb s EmptyString)
  end.

Module Copy2Scan.

(** The scanning loop: the result object is the [exifData] field of the
    state; a hit writes the two properties and leaves the loop. *)
Fixpoint extractIptcData_loop (dataView : DataView) (n : nat) (i : Z)
  : State -> Outcome :=
  match n with
  | O => Normal
  | S n' =>
      let! m := orElse (markerAt dataView i 0xED) (markerAt dataView i 0xE2) in
      if m then
        fun iptcData =>
          Normal (setProp "note" (JStr iptcDetectedNote)
                    (setProp "detected" (JBool true) iptcData))
      else extractIptcData_loop dataView n' (i + 1)
  end.

Definition extractIptcData (dataView : DataView) : gmap string JsValue :=
  exifData
    (catchError "Failed to parse IPTC data"
       match extractIptcData_loop dataView
               (Z.to_nat (Z.min (byteLength dataView - 1) 32768)) 0 newState with
       | Normal iptcData =>
           if negb (truthy (exifData iptcData !! "detected")) then
             Normal (setProp "note" (JStr "No IPTC data found")
                       (setProp "detected" (JBool false) iptcData))
           else Normal iptcData
       | Raised iptcData => Raised iptcData
       end).

Definition extractXmpData (arrayBuffer : DataView) : gmap string JsValue :=
  let xmpData : gmap string JsValue := ∅ in
  let uint8Array := arrayBuffer in
  let searchLength := Z.min (byteLength arrayBuffer) 65536 in
  let fileString :=
    convertBufferToString_loop uint8Array (Z.to_nat searchLength) 0 EmptyString in
  let xmpStart := JS.indexOf fileString "<?xpacket begin=" in
  let xmpEnd := JS.indexOf fileString "<?xpacket end=" in
  if negb (xmpStart =? -1) && negb (xmpEnd =? -1) then
    let xmpContent := JS.substring fileString xmpStart (xmpEnd + 20) in
    let xmpData :=
      <["rawXMP" := JStr (JS.substring xmpContent 0 500 ++ "...")%string]> xmpData in
    let xmpData := <["detected" := JBool true]> xmpData in
    let xmpData :=
      match JS.execElement "title" xmpContent with
      | Some title => <["title" := JStr title]> xmpData
      | None => xmpData
      end in
    match JS.execElement "creator" xmpContent with
    | Some creator => <["creator" := JStr creator]> xmpData
    | None => xmpData
    end
  else
    let xmpData := <["detected" := JBool false]> xmpData in
    <["note" := JStr "No XMP packet found in image"]> xmpData.

End Copy2Scan.

(** ** CSV escaping (lines 564-570) *)

Definition quoteChar : ascii := "034"%char.
Definition commaChar : ascii := ","%char.
Definition newlineChar : ascii := "010"%char.

(** [s.includes(search)] *)
Definition String_includes (s search : string) : bool :=
  negb (JS.indexOf s search =? -1).

(** The global [replace] of the source: every quote character becomes two. *)
Fixpoint doubleQuotes (value : string) : string :=
  match value with
  | EmptyString => EmptyString
  | String c rest =>
      if Ascii.eqb c quoteChar
      then String quoteChar (String quoteChar (doubleQuotes rest))
      else String c (doubleQuotes rest)
  end.

Definition needsQuoting (value : string) : bool :=
  String_includes value (String commaChar EmptyString)
  || String_includes value (String quoteChar EmptyString)
  || String_includes value (String newlineChar EmptyString).

Definition escapeCsvValue (value : JsValue) : JsValue :=
  match value with
  | JStr s =>
      if needsQuoting s then
        JStr (String quoteChar (doubleQuotes s ++ String quoteChar EmptyString))
      else value
  | _ => value
  end.

(** ** Choice of the extraction path (lines 549-551, 662-672, 761-763) *)

(** [s.toLowerCase()] on code units below 256: the ASCII capitals and the
    Latin-1 capitals [0xC0]-[0xDE] other than [0xD7] move up by 32. *)
Definition lowerChar (c : ascii) : ascii :=
  let n := nat_of_ascii c in
  if ((65 <=? n)%nat && (n <=? 90)%nat)
     || ((192 <=? n)%nat && (n <=? 222)%nat && negb (n =? 215)%nat)
  then ascii_of_nat (n + 32) else c.

Fixpoint String_toLowerCase (s : string) : string :=
  match s with
  | EmptyString => EmptyString
  | String c rest => String (lowerChar c) (String_toLowerCase rest)
  end.

Definition supportedMimeTypes : list string :=
  [ "image/jpeg"; "image/jpg"; "image/png"; "image/tiff"; "image/tif" ].

(** The filter of [handleFiles]: [supportedMimeTypes.has(file.type.toLowerCase())]. *)
Definition isValidFile (fileType : string) : bool :=
  bool_decide (String_toLowerCase fileType ∈ supportedMimeTypes).

Definition determineExtractionMethod (type : string) : string :=
  let fileType := String_toLowerCase type in
  if String_includes fileType "jpeg" || String_includes fileType "jpg" then "jpeg"
  else if String_includes fileType "tiff" then "tiff"
  else "basic".

(** ** Vocabulary of the further properties *)

(** [i] indexes an occurrence of [0xFF 0xED] or [0xFF 0xE2]. *)
Definition iptcMarkerIndex (dataView : DataView) (i : Z) : Prop :=
  0 <= i /\ i + 1 < byteLength dataView /\
  byteAt dataView i = 0xFF /\
  (byteAt dataView (i + 1) = 0xED \/ byteAt dataView (i + 1) = 0xE2).

(** The property names the two EXIF paths may write. *)
Definition exifKeys : list string :=
  "byteOrder" :: "format" :: "error" :: registryNames.

(** The two states hold the same result object, and the entries visited in
    the first are those of the second moved by [shift]. *)
Definition shiftedState (shift : Z) (st st' : State) : Prop :=
  exifData st = exifData st' /\
  processed st = (fun o => shift + o) <$> processed st'.

Definition shiftedOutcome (shift : Z) (o o' : Outcome) : Prop :=
  match o, o' with
  | Normal st, Normal st' => shiftedState shift st st'
  | Raised st, Raised st' => shiftedState shift st st'
  | _, _ => False
  end.

(** Sample inputs. *)
Definition csvPlain : string := "Canon EOS".
Definition csvComma : string := "test,value".

(** The 16-bit and the 32-bit value with the bytes of [v] in reverse order. *)
Definition byteSwap16 (v : Z) : Z := 256 * (v mod 256) + v / 256.

Definition byteSwap32 (v : Z) : Z :=
  16777216 * (v mod 256) + 65536 * ((v / 256) mod 256)
  + 256 * ((v / 65536) mod 256) + v / 16777216.

(** The shape of a decoded value: a number within the range of its type, a
    string of at most 100 characters, a quotient by a non-zero denominator
    (or 0 in its place), or [null]. *)
Definition decodedValue (v : JsValue) : Prop :=
  v = JNull \/
  (exists n, v = JNum n /\ 0 <= n < 4294967296) \/
  (exists s, v = JStr s /\ (String.length s <= 100)%nat) \/
  (exists n d, v = JQuot n d /\ 0 <= n < 4294967296 /\ 0 < d < 4294967296).

(** Every registry tag held by the state has the shape of a decoded value. *)
Definition tagsDecoded (st : State) : Prop :=
  forall name v,
    name ∈ registryNames -> exifData st !! name = Some v -> decodedValue v.

(** Every property held by the state is one the EXIF paths may write. *)
Definition keysWithin (st : State) : Prop :=
  forall key, is_Some (exifData st !! key) -> key ∈ exifKeys.

(** The three properties the paths write themselves. *)
Definition pathKeys : list string := [ "byteOrder"; "format"; "error" ].

(** Every marker before index [m] fails the signature test. *)
Definition unsignedBefore (dataView : DataView) (m : Z) : Prop :=
  forall j, j < m -> markerIndex dataView j ->
            exifSignatureAt dataView (j + 4) = Ok false.

(** What the search of the first copy is to return: the header offset behind
    the first marker whose signature test does not answer no, the exception
    of that test, or [-1] when every marker's test answers no. *)
Definition scanResult (dataView : DataView) (r : result Z) : Prop :=
  match r with
  | Ok h =>
      (h = -1 /\
       forall j, markerIndex dataView j ->
                 exifSignatureAt dataView (j + 4) = Ok false) \/
      (h <> -1 /\ markerIndex dataView (h - 4) /\
       exifSignatureBytes dataView h /\ unsignedBefore dataView (h - 4))
  | RangeError =>
      exists m, markerIndex dataView m /\
                exifSignatureAt dataView (m + 4) = RangeError /\
                unsignedBefore dataView m
  end.

(** The two states agree on every registry tag, and the entries visited in
    the first are those of the second moved by [shift]. *)
Definition tagsAgree (shift : Z) (st st' : State) : Prop :=
  (forall name, name ∈ registryNames ->
                exifData st !! name = exifData st' !! name) /\
  processed st = (fun o => shift + o) <$> processed st'.

Definition outcomesAgree (shift : Z) (o o' : Outcome) : Prop :=
  match o, o' with
  | Normal st, Normal st' => tagsAgree shift st st'
  | Raised st, Raised st' => tagsAgree shift st st'
  | _, _ => False
  end.

(** The sample JPEG stream [jpegOddMarker] cut in two: the ten bytes up to
    the end of the Exif signature, and the TIFF sub-stream with a proper
    [II] marker. *)
Definition exifPrefix : DataView :=
  [xff; xe1; x00; x00; x45; x78; x69; x66; x00; x00].

Definition tiffLetterA : DataView :=
  [x49; x49; x2a; x00; x08; x00; x00; x00;
   x01; x00;
   x0f; x01; x02; x00; x02; x00; x00; x00; x41; x00; x00; x00].

(** The two results of the IPTC scan. *)
Definition iptcFound : gmap string JsValue :=
  <["note" := JStr iptcDetectedNote]> (<["detected" := JBool true]> ∅).

Definition iptcNotFound : gmap string JsValue :=
  <["note" := JStr "No IPTC data found"]> (<["detected" := JBool false]> ∅).

(** A JPEG stream with a [0xFF 0xED] segment. *)
Definition jpegWithIptc : DataView := [xff; xd8; xff; xed; x00; x02].

(** The character [c] occurs in [s]. *)
Definition containsChar (c : ascii) (s : string) : Prop :=
  exists k, String.get k s = Some c.

(** No comma, quote or line feed occurs in [s]. *)
Definition csvClean (s : string) : Prop :=
  ~ containsChar commaChar s /\ ~ containsChar quoteChar s /\
  ~ containsChar newlineChar s.

(** * Properties *)

(** ** The byte reader *)

Section ByteReader.

Variable dataView : DataView.

Lemma inView_spec (off w : Z) :
  inView dataView off w = true <-> 0 <= off /\ off + w <= byteLength dataView.
Proof. unfold inView. rewrite andb_true_iff, !Z.leb_le. tauto. Qed.

Lemma inView_false (off w : Z) :
  inView dataView off w = false <-> off < 0 \/ byteLength dataView < off + w.
Proof.
  unfold inView. rewrite andb_false_iff, !Z.leb_gt. tauto.
Qed.

Lemma inView_narrow (off w off' w' : Z) :
  off <= off' -> off' + w' <= off + w ->
  inView dataView off w = true -> inView dataView off' w' = true.
Proof. rewrite !inView_spec. lia. Qed.

Lemma getUint8_Ok (off v : Z) :
  getUint8 dataView off = Ok v ->
  inView dataView off 1 = true /\ v = byteAt dataView off.
Proof. unfold getUint8. destruct (inView _ _ _); [intros [= <-]; auto | discriminate]. Qed.

Lemma getUint16_inView (off : Z) (le : bool) (v : Z) :
  getUint16 dataView off le = Ok v -> inView dataView off 2 = true.
Proof. unfold getUint16. destruct (inView _ _ _); [auto | discriminate]. Qed.

Lemma getUint32_inView (off : Z) (le : bool) (v : Z) :
  getUint32 dataView off le = Ok v -> inView dataView off 4 = true.
Proof. unfold getUint32. destruct (inView _ _ _); [auto | discriminate]. Qed.

Lemma getUint16_total (off : Z) (le : bool) :
  inView dataView off 2 = true -> exists v, getUint16 dataView off le = Ok v.
Proof. intros H. unfold getUint16. rewrite H. eauto. Qed.

Lemma getUint32_total (off : Z) (le : bool) :
  inView dataView off 4 = true -> exists v, getUint32 dataView off le = Ok v.
Proof. intros H. unfold getUint32. rewrite H. eauto. Qed.

Lemma getUint32_raises (off : Z) (le : bool) :
  inView dataView off 4 = false -> getUint32 dataView off le = RangeError.
Proof. intros H. unfold getUint32. now rewrite H. Qed.

Lemma readUint16Value_inView (off : Z) (be : bool) (v : Z) :
  readUint16Value dataView off be = Ok v -> inView dataView off 2 = true.
Proof. unfold readUint16Value. destruct be; apply getUint16_inView. Qed.

Lemma readUint32Value_inView (off : Z) (be : bool) (v : Z) :
  readUint32Value dataView off be = Ok v -> inView dataView off 4 = true.
Proof. unfold readUint32Value. destruct be; apply getUint32_inView. Qed.

Lemma readUint32Value_total (off : Z) (be : bool) :
  inView dataView off 4 = true -> exists v, readUint32Value dataView off be = Ok v.
Proof. unfold readUint32Value. destruct be; apply getUint32_total. Qed.

Lemma byteAt_range (i : Z) : 0 <= byteAt dataView i < 256.
Proof.
  unfold byteAt. destruct (dataView !! Z.to_nat i) as [b|]; [|lia].
  pose proof (Byte.to_N_bounded b). lia.
Qed.

Lemma getUint16_range (off : Z) (le : bool) (v : Z) :
  getUint16 dataView off le = Ok v -> 0 <= v < 65536.
Proof.
  unfold getUint16. destruct (inView _ _ _); [|discriminate].
  intros [= <-].
  pose proof (byteAt_range off). pose proof (byteAt_range (off + 1)).
  destruct le; lia.
Qed.

End ByteReader.

(** ** Rational tags *)

(** C3. Whenever the 32-bit denominator at [offset + 4] can be read, the
    rational decoder returns a value and raises nothing: exactly [0] when the
    denominator is [0], and otherwise the quotient of the unsigned 32-bit
    numerator read at [offset] by that denominator, both read with the
    buffer's endianness. *)
Theorem readRationalValue_guarded (dataView : DataView) (offset : Z)
    (isBigEndian : bool) (denominator : Z) :
  0 <= offset ->
  readUint32Value dataView (offset + 4) isBigEndian = Ok denominator ->
  (denominator = 0 ->
   readRationalValue dataView offset isBigEndian = Ok (JNum 0)) /\
  (denominator <> 0 ->
   exists numerator,
     readUint32Value dataView offset isBigEndian = Ok numerator /\
     readRationalValue dataView offset isBigEndian
       = Ok (JQuot numerator denominator)).
Proof.
  intros Hoff Hden.
  assert (Hin : inView dataView offset 4 = true).
  { apply readUint32Value_inView in Hden. revert Hden.
    rewrite !inView_spec. lia. }
  destruct (readUint32Value_total dataView offset isBigEndian Hin) as [n Hn].
  unfold readRationalValue. rewrite Hn, Hden. simpl. split.
  - intros ->. reflexivity.
  - intros Hnz. exists n. split; [reflexivity|].
    destruct (Z.eqb_spec denominator 0); [contradiction | reflexivity].
Qed.

Lemma readRationalValue_guarded_witness :
  (0 = 0 -> readRationalValue rationalZeroDen 0 true = Ok (JNum 0)) /\
  (0 <> 0 ->
   exists numerator,
     readUint32Value rationalZeroDen 0 true = Ok numerator /\
     readRationalValue rationalZeroDen 0 true = Ok (JQuot numerator 0)).
Proof.
  apply (readRationalValue_guarded rationalZeroDen 0 true 0);
    [lia | reflexivity].
Defined.

Example readRationalValue_three_quarters :
  readRationalValue rationalThreeQuarters 0 true = Ok (JQuot 3 4) /\
  getTagValue rationalThreeQuarters 0 5 0 0 true = Ok (JQuot 3 4).
Proof. split; reflexivity. Qed.

(** ** Value location *)

Lemma calculateActualOffset_inline (dataView : DataView)
    (valueOffset type count tiffOffset : Z) (isBigEndian : bool) :
  getTypeSize type * count <= 4 ->
  calculateActualOffset dataView valueOffset type count tiffOffset isBigEndian
    = Ok valueOffset.
Proof.
  intros H. unfold calculateActualOffset.
  destruct (Z.gtb_spec (getTypeSize type * count) 4); [lia | reflexivity].
Qed.

Lemma calculateActualOffset_pointer (dataView : DataView)
    (valueOffset type count tiffOffset : Z) (isBigEndian : bool) :
  4 < getTypeSize type * count ->
  calculateActualOffset dataView valueOffset type count tiffOffset isBigEndian
    = let* p := readUint32Value dataView valueOffset isBigEndian in
      Ok (tiffOffset + p).
Proof.
  intros H. unfold calculateActualOffset, readUint32Value.
  destruct (Z.gtb_spec (getTypeSize type * count) 4); [reflexivity | lia].
Qed.

(** Payload locations are never negative. *)
Lemma calculateActualOffset_nonneg (dataView : DataView)
    (valueOffset type count tiffOffset : Z) (isBigEndian : bool) (a : Z) :
  0 <= valueOffset -> 0 <= tiffOffset ->
  calculateActualOffset dataView valueOffset type count tiffOffset isBigEndian
    = Ok a ->
  0 <= a.
Proof.
  intros Hv Ht. unfold calculateActualOffset.
  destruct (_ >? 4); [|intros [= <-]; exact Hv].
  destruct (if isBigEndian then _ else _) as [p|] eqn:Hp; simpl;
    [|discriminate].
  intros [= <-].
  assert (0 <= p); [|lia].
  unfold getUint32 in Hp.
  pose proof (byteAt_range dataView valueOffset).
  pose proof (byteAt_range dataView (valueOffset + 1)).
  pose proof (byteAt_range dataView (valueOffset + 2)).
  pose proof (byteAt_range dataView (valueOffset + 3)).
  destruct (inView dataView valueOffset 4);
    destruct isBigEndian; try discriminate; injection Hp as <-; lia.
Qed.

(** C4. The value of the entry at [tagOffset] is decoded at the inline
    position [tagOffset + 8] when [typeSize(type) * count <= 4], and
    otherwise at [tiffOffset] plus the 32-bit pointer stored at the inline
    position, read with the buffer's endianness. *)
Theorem payload_location (dataView : DataView)
    (tagOffset type count tiffOffset : Z) (isBigEndian : bool) :
  (getTypeSize type * count <= 4 ->
   calculateActualOffset dataView (tagOffset + 8) type count tiffOffset
     isBigEndian = Ok (tagOffset + 8)) /\
  (~ getTypeSize type * count <= 4 ->
   calculateActualOffset dataView (tagOffset + 8) type count tiffOffset
     isBigEndian
   = let* pointerValue := readUint32Value dataView (tagOffset + 8) isBigEndian in
     Ok (tiffOffset + pointerValue)).
Proof.
  split; intros H.
  - now apply calculateActualOffset_inline.
  - apply calculateActualOffset_pointer. lia.
Qed.

Lemma payload_location_witness :
  calculateActualOffset tiffAcme (10 + 8) 2 5 0 false
  = let* pointerValue := readUint32Value tiffAcme (10 + 8) false in
    Ok (0 + pointerValue).
Proof.
  destruct (payload_location tiffAcme 10 2 5 0 false) as [_ H].
  apply H. change (getTypeSize 2) with 1. lia.
Defined.

Example inline_and_pointer_examples :
  calculateActualOffset tiffThreeDeclared (10 + 8) 2 2 0 false = Ok 18 /\
  calculateActualOffset tiffAcme (10 + 8) 2 5 0 false = Ok 26.
Proof. split; reflexivity. Qed.

(** ** Type dispatch *)

Lemma dispatch_default {A : Type} (type : Z) (a1 a2 a3 a4 a5 d : A) :
  ~ handledType type ->
  match type with
  | 1 => a1 | 2 => a2 | 3 => a3 | 4 => a4 | 5 => a5 | _ => d
  end = d.
Proof.
  unfold handledType. intros H.
  destruct type as [|p|p]; try reflexivity.
  destruct p as [[p|[p|p|]|]|[p|[p|p|]|]|]; try reflexivity;
    exfalso; apply H; auto 6.
Qed.

Lemma getTagValue_default (dataView : DataView)
    (valueOffset type count tiffOffset : Z) (isBigEndian : bool) :
  ~ handledType type ->
  getTagValue dataView valueOffset type count tiffOffset isBigEndian
  = let* actualOffset := calculateActualOffset dataView valueOffset type count
                           tiffOffset isBigEndian in
    Ok JNull.
Proof.
  intros H. unfold getTagValue.
  destruct (calculateActualOffset _ _ _ _ _ _); simpl; [|reflexivity].
  now apply dispatch_default.
Qed.

(** C5, as the code has it.  For a type code outside 1..5 the decoder returns
    [null] when the value is inline ([typeSize(type) * count <= 4]) or the
    four pointer bytes at the value offset lie inside the buffer; when the
    value is pointer-indirected and those four bytes do not lie inside the
    buffer, it raises a [RangeError].  The walker, on an entry of a
    registered tag with such a type, stores [null] under the tag's name in
    the first case; in the second it catches the exception at the entry,
    returns normally and leaves the result object as it was, the tag
    omitted. *)
Theorem getTagValue_unhandled_type (dataView : DataView)
    (valueOffset type count tiffOffset : Z) (isBigEndian : bool) :
  ~ handledType type ->
  (getTypeSize type * count <= 4 \/ inView dataView valueOffset 4 = true ->
   getTagValue dataView valueOffset type count tiffOffset isBigEndian
     = Ok JNull) /\
  (4 < getTypeSize type * count -> inView dataView valueOffset 4 = false ->
   getTagValue dataView valueOffset type count tiffOffset isBigEndian
     = RangeError) /\
  (forall (tagOffset tag : Z) (name : string) (st : State),
     valueOffset = tagOffset + 8 ->
     readUint16Value dataView tagOffset isBigEndian = Ok tag ->
     readUint16Value dataView (tagOffset + 2) isBigEndian = Ok type ->
     readUint32Value dataView (tagOffset + 4) isBigEndian = Ok count ->
     EXIF_TAGS !! tag = Some name ->
     (getTypeSize type * count <= 4 \/ inView dataView valueOffset 4 = true ->
      processIfdEntry dataView tagOffset tiffOffset isBigEndian st
      = Normal (setProp name JNull (enterEntry tagOffset st))) /\
     (4 < getTypeSize type * count -> inView dataView valueOffset 4 = false ->
      processIfdEntry dataView tagOffset tiffOffset isBigEndian st
      = Normal (enterEntry tagOffset st) /\
      exifData (enterEntry tagOffset st) = exifData st)).
Proof.
  intros Hty.
  assert (Hnull :
    getTypeSize type * count <= 4 \/ inView dataView valueOffset 4 = true ->
    getTagValue dataView valueOffset type count tiffOffset isBigEndian
    = Ok JNull).
  { rewrite getTagValue_default by assumption. intros Hcase.
    destruct (Z_le_gt_dec (getTypeSize type * count) 4) as [Hle|Hgt].
    + now rewrite calculateActualOffset_inline.
    + destruct Hcase as [Hle|Hin]; [lia|].
      rewrite calculateActualOffset_pointer by lia.
      destruct (readUint32Value_total dataView valueOffset isBigEndian Hin)
        as [p ->].
      reflexivity. }
  assert (Hraise :
    4 < getTypeSize type * count -> inView dataView valueOffset 4 = false ->
    getTagValue dataView valueOffset type count tiffOffset isBigEndian
    = RangeError).
  { rewrite getTagValue_default by assumption. intros Hgt Hout.
    rewrite calculateActualOffset_pointer by lia.
    unfold readUint32Value.
    destruct isBigEndian; now rewrite getUint32_raises. }
  split; [exact Hnull|]. split; [exact Hraise|].
  intros tagOffset tag name st -> Htag Htype Hcount Hname.
  unfold readUint16Value in Htag, Htype. unfold readUint32Value in Hcount.
  unfold processIfdEntry, tryRead. rewrite Htag, Htype, Hcount, Hname.
  split.
  - intros Hcase. now rewrite (Hnull Hcase).
  - intros Hgt Hout. now rewrite (Hraise Hgt Hout).
Qed.

Lemma getTagValue_unhandled_type_witness :
  getTagValue tiffAcme 18 7 4 0 false = Ok JNull /\
  getTagValue tiffCutEntry 18 7 5 0 false = RangeError /\
  processIfdEntry tiffCutEntry 10 0 false newState
  = Normal (enterEntry 10 newState).
Proof.
  assert (H : ~ handledType 7) by (unfold handledType; lia).
  split; [|split].
  - apply (getTagValue_unhandled_type tiffAcme 18 7 4 0 false H).
    left. reflexivity.
  - apply (getTagValue_unhandled_type tiffCutEntry 18 7 5 0 false H);
      reflexivity.
  - destruct (getTagValue_unhandled_type tiffCutEntry 18 7 5 0 false H)
      as (_ & _ & Hwalk).
    destruct (Hwalk 10 0x010F "Make" newState
                eq_refl eq_refl eq_refl eq_refl eq_refl) as [_ Hcut].
    exact (proj1 (Hcut eq_refl eq_refl)).
Defined.

(** C5 as stated fails: on a file cut off after the count field of an entry
    of type 7 and count 5, reading the value raises, and the walker omits the
    tag instead of storing [null]. *)
Lemma unhandled_type_read_may_raise :
  ~ handledType 7 /\
  getTagValue tiffCutEntry 18 7 5 0 false = RangeError /\
  extractTiffExifData tiffCutEntry !! "Make" = None /\
  extractTiffExifData tiffCutEntry
  = <["format" := JStr "Valid TIFF"]>
      (<["byteOrder" := JStr "Little Endian (II)"]> ∅).
Proof.
  split; [unfold handledType; lia|].
  split; [reflexivity|].
  split; vm_compute; reflexivity.
Qed.

(** ** ASCII tags *)

Lemma append_cons (c : ascii) (s t : string) :
  (String c s ++ t)%string = String c (s ++ t).
Proof. reflexivity. Qed.

Lemma append_nil_r (s : string) : (s ++ EmptyString)%string = s.
Proof.
  induction s as [|c s IH]; [reflexivity | now rewrite append_cons, IH].
Qed.

Lemma append_assoc (s t u : string) :
  ((s ++ t) ++ u)%string = (s ++ (t ++ u))%string.
Proof.
  induction s as [|c s IH]; [reflexivity | now rewrite !append_cons, IH].
Qed.

Lemma length_append (s t : string) :
  String.length (s ++ t) = (String.length s + String.length t)%nat.
Proof.
  induction s as [|c s IH]; [reflexivity|].
  rewrite append_cons. simpl. now rewrite IH.
Qed.

Lemma readAsciiString_loop_Ok (dataView : DataView) (offset : Z) (n : nat) :
  forall (i : Z) (str s : string),
    readAsciiString_loop dataView offset n i str = Ok s ->
    exists t,
      s = (str ++ t)%string /\
      String.length t = n /\
      forall k, (k < n)%nat ->
        String.get k t
        = Some (fromCharCode (byteAt dataView (offset + i + Z.of_nat k))).
Proof.
  induction n as [|n IH]; intros i str s; simpl.
  - intros [= <-]. exists EmptyString. rewrite append_nil_r.
    repeat split; intros; lia.
  - destruct (getUint8 dataView (offset + i)) as [c|] eqn:Hc; simpl;
      [|discriminate].
    apply getUint8_Ok in Hc as [_ ->]. intros Hs.
    destruct (IH _ _ _ Hs) as (t & -> & Hlen & Hget).
    exists (String (fromCharCode (byteAt dataView (offset + i))) t).
    split; [now rewrite append_assoc|]. split; [simpl; lia|].
    intros [|k] Hk; simpl.
    + now rewrite Z.add_0_r.
    + rewrite Hget by lia. do 3 f_equal. lia.
Qed.

Lemma readAsciiString_loop_total (dataView : DataView) (offset : Z) (n : nat) :
  forall (i : Z) (str : string),
    0 <= offset + i ->
    offset + i + Z.of_nat n <= byteLength dataView ->
    exists s, readAsciiString_loop dataView offset n i str = Ok s.
Proof.
  induction n as [|n IH]; intros i str Hlo Hhi; simpl; [eauto|].
  unfold getUint8.
  replace (inView dataView (offset + i) 1) with true
    by (symmetry; apply inView_spec; lia).
  simpl. apply IH; lia.
Qed.

Lemma readAsciiString_Ok (dataView : DataView) (offset count : Z) (s : string) :
  readAsciiString dataView offset count = Ok s ->
  Z.of_nat (String.length s) = Z.max 0 (Z.min (count - 1) 100) /\
  forall k, (k < String.length s)%nat ->
    String.get k s = Some (fromCharCode (byteAt dataView (offset + Z.of_nat k))).
Proof.
  unfold readAsciiString. intros H.
  apply readAsciiString_loop_Ok in H as (t & -> & Hlen & Hget).
  change (String.append EmptyString t) with t.
  split; [lia|].
  intros k Hk. rewrite Hget by lia. do 3 f_equal. lia.
Qed.

(** [readAsciiString] returns a string whenever the bytes it is to read lie
    inside the buffer. *)
Lemma readAsciiString_total (dataView : DataView) (offset count : Z) :
  0 <= offset ->
  offset + Z.max 0 (Z.min (count - 1) 100) <= byteLength dataView ->
  exists s, readAsciiString dataView offset count = Ok s.
Proof.
  intros Hlo Hhi. unfold readAsciiString.
  apply readAsciiString_loop_total; lia.
Qed.

(** C2, as the code has it.  An ASCII tag read (type code 2) that returns a
    value returns a string of exactly [min(count - 1, 100)] characters (none
    when that is negative), so at most 100 characters whatever the declared
    count; character [k] is the character whose code is the byte at the
    payload location plus [k]. *)
Theorem ascii_tag_length_bound (dataView : DataView)
    (valueOffset count tiffOffset : Z) (isBigEndian : bool) (value : JsValue) :
  getTagValue dataView valueOffset 2 count tiffOffset isBigEndian = Ok value ->
  exists (actualOffset : Z) (s : string),
    calculateActualOffset dataView valueOffset 2 count tiffOffset isBigEndian
      = Ok actualOffset /\
    value = JStr s /\
    Z.of_nat (String.length s) = Z.max 0 (Z.min (count - 1) 100) /\
    (String.length s <= 100)%nat /\
    forall k, (k < String.length s)%nat ->
      String.get k s
      = Some (fromCharCode (byteAt dataView (actualOffset + Z.of_nat k))).
Proof.
  unfold getTagValue.
  destruct (calculateActualOffset _ _ _ _ _ _) as [a|]; simpl; [|discriminate].
  destruct (readAsciiString dataView a count) as [s|] eqn:Hs; simpl;
    [|discriminate].
  intros [= <-]. exists a, s.
  destruct (readAsciiString_Ok _ _ _ _ Hs) as [Hlen Hget].
  repeat split; auto. lia.
Qed.

Lemma ascii_tag_length_bound_witness :
  exists (actualOffset : Z) (s : string),
    calculateActualOffset tiffAcme 18 2 5 0 false = Ok actualOffset /\
    JStr "ACME" = JStr s /\
    Z.of_nat (String.length s) = Z.max 0 (Z.min (5 - 1) 100) /\
    (String.length s <= 100)%nat /\
    forall k, (k < String.length s)%nat ->
      String.get k s
      = Some (fromCharCode (byteAt tiffAcme (actualOffset + Z.of_nat k))).
Proof.
  apply (ascii_tag_length_bound tiffAcme 18 5 0 false (JStr "ACME")).
  reflexivity.
Defined.

(** C2 as stated fails: with a declared count of 101 the ASCII read returns
    a string of 100 characters. *)
Lemma ascii_tag_may_hold_100 :
  exists s : string,
    getTagValue asciiRun 0 2 101 0 false = Ok (JStr s) /\
    String.length s = 100%nat /\ ~ (String.length s <= 99)%nat.
Proof.
  eexists. split; [vm_compute; reflexivity|]. split; [reflexivity | simpl; lia].
Qed.

(** ** The IFD walker *)

Section Walker.

Variable dataView : DataView.
Variables ifdOffset tiffOffset : Z.
Variable isBigEndian : bool.

Lemma header_reads (tagOffset : Z) :
  inView dataView tagOffset 8 = true ->
  exists tag type count,
    readUint16Value dataView tagOffset isBigEndian = Ok tag /\
    readUint16Value dataView (tagOffset + 2) isBigEndian = Ok type /\
    readUint32Value dataView (tagOffset + 4) isBigEndian = Ok count.
Proof.
  intros H.
  destruct (getUint16_total dataView tagOffset (negb isBigEndian)) as [tag Htag].
  { revert H. apply inView_narrow; lia. }
  destruct (getUint16_total dataView (tagOffset + 2) (negb isBigEndian))
    as [type Htype].
  { revert H. apply inView_narrow; lia. }
  destruct (getUint32_total dataView (tagOffset + 4) (negb isBigEndian))
    as [count Hcount].
  { revert H. apply inView_narrow; lia. }
  exists tag, type, count. unfold readUint16Value, readUint32Value.
  destruct isBigEndian; auto.
Qed.

Lemma processIfdEntry_processed (tagOffset : Z) (st : State) :
  processed (finalState (processIfdEntry dataView tagOffset tiffOffset
                           isBigEndian st))
  = processed st ++ [tagOffset].
Proof.
  unfold processIfdEntry, tryRead.
  repeat match goal with
         | |- context [match ?r with Ok _ => _ | RangeError => _ end] =>
             destruct r; simpl
         | |- context [match ?r with Some _ => _ | None => _ end] =>
             destruct r; simpl
         end; reflexivity.
Qed.

Lemma processIfdEntry_Normal (tagOffset : Z) (st : State) :
  inView dataView tagOffset 8 = true ->
  exists st', processIfdEntry dataView tagOffset tiffOffset isBigEndian st
              = Normal st'.
Proof.
  intros H. destruct (header_reads tagOffset H) as (tag & type & count & Ht & Hy & Hc).
  unfold processIfdEntry, tryRead.
  unfold readUint16Value in Ht, Hy. unfold readUint32Value in Hc.
  rewrite Ht, Hy, Hc.
  destruct (EXIF_TAGS !! tag); [|eauto].
  destruct (getTagValue _ _ _ _ _ _); eauto.
Qed.

Lemma processIfdEntry_Raised (tagOffset : Z) (st st' : State) :
  processIfdEntry dataView tagOffset tiffOffset isBigEndian st = Raised st' ->
  inView dataView tagOffset 8 = false.
Proof.
  intros H. destruct (inView dataView tagOffset 8) eqn:Hin; [|reflexivity].
  destruct (processIfdEntry_Normal tagOffset st Hin) as [st'' Hn].
  congruence.
Qed.

Lemma entryOffsets_S (i : Z) (k : nat) :
  entryOffsets ifdOffset i (S k)
  = (ifdOffset + 2 + i * 12) :: entryOffsets ifdOffset (i + 1) k.
Proof.
  unfold entryOffsets. rewrite Nat2Z.inj_succ, seqZ_cons by lia.
  rewrite fmap_cons. do 3 f_equal; lia.
Qed.

Lemma processIfdEntry_cut (tagOffset : Z) (st : State) :
  inView dataView tagOffset 8 = false ->
  exists st', processIfdEntry dataView tagOffset tiffOffset isBigEndian st
              = Raised st'.
Proof.
  intros Hcut. unfold processIfdEntry, tryRead.
  destruct (if isBigEndian then getUint16 dataView tagOffset false else _)
    as [tag|] eqn:Htag; [|eauto].
  destruct (if isBigEndian then getUint16 dataView (tagOffset + 2) false else _)
    as [type|] eqn:Htype; [|eauto].
  destruct (if isBigEndian then getUint32 dataView (tagOffset + 4) false else _)
    as [count|] eqn:Hcount; [|eauto].
  exfalso.
  assert (H2 : inView dataView tagOffset 2 = true)
    by (destruct isBigEndian; eapply getUint16_inView; eauto).
  assert (H4 : inView dataView (tagOffset + 4) 4 = true)
    by (destruct isBigEndian; eapply getUint32_inView; eauto).
  apply inView_spec in H2, H4. apply inView_false in Hcut. lia.
Qed.

Lemma parseIfd_loop_trace (n : nat) :
  forall (i : Z) (st : State),
    0 <= ifdOffset + 2 + i * 12 ->
    exists k : nat,
      (k <= n)%nat /\
      processed (finalState (parseIfd_loop dataView ifdOffset tiffOffset
                               isBigEndian n i st))
      = processed st ++ entryOffsets ifdOffset i k /\
      (forall st', parseIfd_loop dataView ifdOffset tiffOffset isBigEndian
                     n i st = Normal st' -> k = n) /\
      (forall st', parseIfd_loop dataView ifdOffset tiffOffset isBigEndian
                     n i st = Raised st' ->
                   (0 < k)%nat /\
                   inView dataView (ifdOffset + 2 + (i + Z.of_nat k - 1) * 12) 8
                   = false) /\
      (ifdOffset + 2 + (i + Z.of_nat n) * 12 <= byteLength dataView ->
       exists st', parseIfd_loop dataView ifdOffset tiffOffset isBigEndian
                     n i st = Normal st') /\
      (forall j, i <= j < i + Z.of_nat n ->
                 inView dataView (ifdOffset + 2 + j * 12) 8 = false ->
                 (exists st', parseIfd_loop dataView ifdOffset tiffOffset
                                isBigEndian n i st = Raised st') /\
                 Z.of_nat k <= j - i + 1).
Proof.
  induction n as [|n IH]; intros i st Hlo.
  - exists 0%nat. simpl. unfold entryOffsets. simpl.
    rewrite app_nil_r.
    split; [lia|]. split; [reflexivity|]. split; [reflexivity|].
    split; [discriminate|]. split; [eauto|]. intros j Hj. lia.
  - simpl.
    pose proof (processIfdEntry_processed (ifdOffset + 2 + i * 12) st) as Hp.
    destruct (processIfdEntry dataView (ifdOffset + 2 + i * 12) tiffOffset
                isBigEndian st) as [st1|st1] eqn:He; simpl in Hp.
    + destruct (IH (i + 1) st1) as (k & Hk & Htr & Hn & Hr & Ht & Hc); [lia|].
      exists (S k). split; [lia|]. split.
      { rewrite Htr, Hp, entryOffsets_S, <- app_assoc. reflexivity. }
      split; [intros st' H; f_equal; eauto|]. split.
      { intros st' H. destruct (Hr st' H) as [Hk0 Hv]. split; [lia|].
        rewrite <- Hv. do 2 f_equal. lia. }
      split; [intros Hhi; apply Ht; lia|].
      intros j Hj Hcut.
      assert (j <> i).
      { intros ->. destruct (processIfdEntry_cut _ st Hcut) as [st' Hst'].
        congruence. }
      destruct (Hc j ltac:(lia) Hcut) as [Hraised Hle].
      split; [exact Hraised | lia].
    + exists 1%nat. split; [lia|]. split.
      { simpl. rewrite Hp, entryOffsets_S. unfold entryOffsets. reflexivity. }
      split; [discriminate|]. split.
      { intros st' _. split; [lia|].
        apply processIfdEntry_Raised in He. rewrite <- He. do 2 f_equal. lia. }
      split.
      { intros Hhi. exfalso.
        apply processIfdEntry_Raised in He. apply inView_false in He. lia. }
      intros j Hj Hcut. split; [eauto | lia].
Qed.

End Walker.

(** C1, as the code has it.  With [tagCount] the 16-bit count read at the IFD
    offset, the walker enters its loop body [k] times, at the offsets
    [ifdOffset + 2 + 12 * i] for [i < k], entry after entry, where
    [k <= min(tagCount, 50)], so never more than 50 times.  If it returns
    normally then [k = min(tagCount, 50)], and it does return normally when
    that many 12-byte entries lie inside the buffer.  If it raises, it was on
    entry [k - 1], whose 8 header bytes do not lie inside the buffer.  And
    whenever the 8 header bytes of a declared entry [j] below the cap do not
    lie inside the buffer, the walker raises and [k <= j + 1]: the walk
    stops at a cut entry and no entry after it is processed. *)
Theorem parseIfd_iterations (dataView : DataView) (ifdOffset tiffOffset : Z)
    (isBigEndian : bool) (st : State) (tagCount : Z) :
  readUint16Value dataView ifdOffset isBigEndian = Ok tagCount ->
  exists k : Z,
    0 <= k <= Z.min tagCount 50 /\ k <= 50 /\
    processed (finalState (parseIfd dataView ifdOffset tiffOffset isBigEndian st))
    = processed st ++ ((fun i => ifdOffset + 2 + i * 12) <$> seqZ 0 k) /\
    (forall st', parseIfd dataView ifdOffset tiffOffset isBigEndian st
                 = Normal st' -> k = Z.min tagCount 50) /\
    (forall st', parseIfd dataView ifdOffset tiffOffset isBigEndian st
                 = Raised st' ->
                 0 < k /\
                 inView dataView (ifdOffset + 2 + (k - 1) * 12) 8 = false) /\
    (ifdOffset + 2 + 12 * Z.min tagCount 50 <= byteLength dataView ->
     exists st', parseIfd dataView ifdOffset tiffOffset isBigEndian st
                 = Normal st') /\
    (forall j, 0 <= j < Z.min tagCount 50 ->
               inView dataView (ifdOffset + 2 + j * 12) 8 = false ->
               (exists st', parseIfd dataView ifdOffset tiffOffset isBigEndian st
                            = Raised st') /\
               k <= j + 1).
Proof.
  intros Hcount.
  pose proof (readUint16Value_inView _ _ _ _ Hcount) as Hin.
  apply inView_spec in Hin.
  assert (Hrange : 0 <= tagCount < 65536).
  { unfold readUint16Value in Hcount.
    destruct isBigEndian; eapply getUint16_range; eauto. }
  unfold parseIfd, tryRead. unfold readUint16Value in Hcount. rewrite Hcount.
  destruct (parseIfd_loop_trace dataView ifdOffset tiffOffset isBigEndian
              (Z.to_nat (Z.min tagCount 50)) 0 st)
    as (k & Hk & Htr & Hn & Hr & Ht & Hc); [lia|].
  exists (Z.of_nat k). split; [lia|]. split; [lia|].
  split; [exact Htr|]. split.
  { intros st' H. rewrite (Hn st' H). lia. }
  split.
  { intros st' H. destruct (Hr st' H) as [Hk0 Hv]. split; [lia|].
    rewrite <- Hv. do 2 f_equal. }
  split; [intros Hhi; apply Ht; lia|].
  intros j Hj Hcut. destruct (Hc j ltac:(lia) Hcut) as [Hraised Hle].
  split; [exact Hraised | lia].
Qed.

Lemma parseIfd_iterations_witness :
  exists k : Z,
    0 <= k <= Z.min 3 50 /\ k <= 50 /\
    processed (finalState (parseIfd tiffThreeDeclared 8 0 false newState))
    = processed newState ++ ((fun i => 8 + 2 + i * 12) <$> seqZ 0 k) /\
    (forall st', parseIfd tiffThreeDeclared 8 0 false newState = Normal st' ->
                 k = Z.min 3 50) /\
    (forall st', parseIfd tiffThreeDeclared 8 0 false newState = Raised st' ->
                 0 < k /\
                 inView tiffThreeDeclared (8 + 2 + (k - 1) * 12) 8 = false) /\
    (8 + 2 + 12 * Z.min 3 50 <= byteLength tiffThreeDeclared ->
     exists st', parseIfd tiffThreeDeclared 8 0 false newState = Normal st') /\
    (forall j, 0 <= j < Z.min 3 50 ->
               inView tiffThreeDeclared (8 + 2 + j * 12) 8 = false ->
               (exists st', parseIfd tiffThreeDeclared 8 0 false newState
                            = Raised st') /\
               k <= j + 1).
Proof.
  apply (parseIfd_iterations tiffThreeDeclared 8 0 false newState 3).
  reflexivity.
Defined.

(** C1 as stated fails: IFD0 declares three entries and the file ends after
    the first.  The walker enters its loop body at offsets 10 and 22 only,
    raises on the second entry, and the decode ends with an error note. *)
Lemma parseIfd_stops_at_cut_entry :
  readUint16Value tiffThreeDeclared 8 false = Ok 3 /\
  parseIfd tiffThreeDeclared 8 0 false newState
  = Raised (mkState (<["Make" := JStr "A"]> ∅) [10; 22]) /\
  Z.of_nat (length [10; 22]) <> Z.min 3 50 /\
  extractTiffExifData tiffThreeDeclared
  = <["error" := JStr "Failed to parse TIFF EXIF data"]>
      (<["Make" := JStr "A"]>
         (<["format" := JStr "Valid TIFF"]>
            (<["byteOrder" := JStr "Little Endian (II)"]> ∅))).
Proof.
  split; [reflexivity|]. split; [vm_compute; reflexivity|].
  split; [simpl; lia|]. vm_compute. reflexivity.
Qed.

(** ** What the walker writes *)

Lemma EXIF_TAGS_names (tag : Z) (name : string) :
  EXIF_TAGS !! tag = Some name -> name ∈ registryNames.
Proof.
  intros H. apply elem_of_list_to_map_2 in H.
  unfold registryNames.
  repeat (apply elem_of_cons in H as [H|H];
          [injection H as _ ->; repeat first [left; reflexivity | right]|]).
  now apply elem_of_nil in H.
Qed.

Lemma registryNames_not_reserved (name : string) :
  name ∈ registryNames ->
  name <> "byteOrder" /\ name <> "format" /\ name <> "error".
Proof.
  unfold registryNames. intros H.
  repeat (apply elem_of_cons in H as [->|H]; [repeat split; discriminate|]).
  now apply elem_of_nil in H.
Qed.

Lemma byteOrder_not_registered : "byteOrder" ∉ registryNames.
Proof. intros H. now apply registryNames_not_reserved in H as [? _]. Qed.

Lemma processIfdEntry_other_keys (dataView : DataView)
    (tagOffset tiffOffset : Z) (isBigEndian : bool) (st : State) (key : string) :
  key ∉ registryNames ->
  exifData (finalState (processIfdEntry dataView tagOffset tiffOffset
                          isBigEndian st)) !! key
  = exifData st !! key.
Proof.
  intros Hkey. unfold processIfdEntry, tryRead.
  destruct (if isBigEndian then getUint16 dataView tagOffset false else _)
    as [tag|]; simpl; [|reflexivity].
  destruct (if isBigEndian then getUint16 dataView (tagOffset + 2) false else _)
    as [type|]; simpl; [|reflexivity].
  destruct (if isBigEndian then getUint32 dataView (tagOffset + 4) false else _)
    as [count|]; simpl; [|reflexivity].
  destruct (EXIF_TAGS !! tag) as [name|] eqn:Hname; simpl; [|reflexivity].
  destruct (getTagValue _ _ _ _ _ _); simpl; [|reflexivity].
  apply lookup_insert_ne. intros ->.
  apply Hkey. eapply EXIF_TAGS_names; eauto.
Qed.

Lemma parseIfd_loop_other_keys (dataView : DataView)
    (ifdOffset tiffOffset : Z) (isBigEndian : bool) (key : string) (n : nat) :
  key ∉ registryNames ->
  forall (i : Z) (st : State),
    exifData (finalState (parseIfd_loop dataView ifdOffset tiffOffset
                            isBigEndian n i st)) !! key
    = exifData st !! key.
Proof.
  intros Hkey. induction n as [|n IH]; intros i st; simpl; [reflexivity|].
  pose proof (processIfdEntry_other_keys dataView (ifdOffset + 2 + i * 12)
                tiffOffset isBigEndian st key Hkey) as Hp.
  destruct (processIfdEntry _ _ _ _ _) as [st1|st1]; simpl in *.
  - now rewrite IH.
  - exact Hp.
Qed.

Lemma parseIfd_other_keys (dataView : DataView)
    (ifdOffset tiffOffset : Z) (isBigEndian : bool) (key : string) (st : State) :
  key ∉ registryNames ->
  exifData (finalState (parseIfd dataView ifdOffset tiffOffset isBigEndian st))
    !! key
  = exifData st !! key.
Proof.
  intros Hkey. unfold parseIfd, tryRead.
  destruct (if isBigEndian then _ else _); simpl; [|reflexivity].
  now apply parseIfd_loop_other_keys.
Qed.

Lemma catchError_other_keys (message key : string) (o : Outcome) :
  key <> "error" ->
  exifData (catchError message o) !! key = exifData (finalState o) !! key.
Proof.
  intros Hkey. destruct o; simpl; [reflexivity|].
  now apply lookup_insert_ne.
Qed.

(** ** The bare TIFF path *)

(** C7. On the bare TIFF path, with the byte order taken from the two bytes
    at offset 0 and the magic number read at offset 2 with that byte order:
    if the magic number is 42, the format is recorded as valid, the IFD0
    offset is read at offset 4 and the IFD walker is run on it with
    [tiffOffset = 0], all inside the path's own [catch]; for every other
    magic number the result holds the byte order and the error
    [Invalid TIFF magic number], no entry is visited, no registry tag is
    present, and the function returns normally. *)
Theorem extractTiffExifData_magic (dataView : DataView) (byteOrder magicNumber : Z) :
  getUint16 dataView 0 false = Ok byteOrder ->
  readUint16Value dataView 2 (byteOrder =? 0x4D4D) = Ok magicNumber ->
  (magicNumber = 42 ->
   extractTiffExifData_state dataView
   = catchError "Failed to parse TIFF EXIF data"
       ((let! ifd0Offset := readUint32Value dataView 4 (byteOrder =? 0x4D4D) in
         parseIfd dataView ifd0Offset 0 (byteOrder =? 0x4D4D))
          (setProp "format" (JStr "Valid TIFF")
             (setProp "byteOrder"
                (JStr (tiffByteOrderName (byteOrder =? 0x4D4D))) newState))) /\
   forall ifd0Offset,
     readUint32Value dataView 4 (byteOrder =? 0x4D4D) = Ok ifd0Offset ->
     extractTiffExifData_state dataView
     = catchError "Failed to parse TIFF EXIF data"
         (parseIfd dataView ifd0Offset 0 (byteOrder =? 0x4D4D)
            (setProp "format" (JStr "Valid TIFF")
               (setProp "byteOrder"
                  (JStr (tiffByteOrderName (byteOrder =? 0x4D4D))) newState)))) /\
  (magicNumber <> 42 ->
   extractTiffExifData_state dataView
   = mkState
       (<["error" := JStr "Invalid TIFF magic number"]>
          (<["byteOrder" := JStr (tiffByteOrderName (byteOrder =? 0x4D4D))]> ∅))
       [] /\
   forall name, name ∈ registryNames ->
                extractTiffExifData dataView !! name = None).
Proof.
  intros Hbo Hmagic.
  unfold extractTiffExifData, extractTiffExifData_state, tryRead.
  rewrite Hbo. unfold readUint16Value in Hmagic. rewrite Hmagic.
  split.
  - intros ->. split; [reflexivity|].
    intros ifd0Offset Hifd. unfold readUint32Value in Hifd.
    rewrite Hifd. reflexivity.
  - intros Hne. destruct (Z.eqb_spec magicNumber 42); [contradiction|].
    split; [reflexivity|].
    intros name Hname. simpl.
    apply registryNames_not_reserved in Hname as (Hb & _ & He).
    rewrite !lookup_insert_ne by congruence. apply lookup_empty.
Qed.

Lemma extractTiffExifData_magic_witness :
  extractTiffExifData_state tiffAcme
  = catchError "Failed to parse TIFF EXIF data"
      (parseIfd tiffAcme 8 0 (0x4949 =? 0x4D4D)
         (setProp "format" (JStr "Valid TIFF")
            (setProp "byteOrder"
               (JStr (tiffByteOrderName (0x4949 =? 0x4D4D))) newState))) /\
  extractTiffExifData_state tiffBadMagic
  = mkState
      (<["error" := JStr "Invalid TIFF magic number"]>
         (<["byteOrder" := JStr (tiffByteOrderName (0x4D4D =? 0x4D4D))]> ∅))
      [].
Proof.
  split.
  - destruct (extractTiffExifData_magic tiffAcme 0x4949 42) as [H _];
      [reflexivity | reflexivity |].
    destruct (H eq_refl) as [_ Hwalk]. apply Hwalk. reflexivity.
  - destruct (extractTiffExifData_magic tiffBadMagic 0x4D4D 43) as [_ H];
      [reflexivity | reflexivity |].
    apply H. discriminate.
Defined.

(** A file that ends right after magic number 42: the IFD0 offset cannot be
    read, and the [catch] of the path records it. *)
Example extractTiffExifData_cut_after_magic :
  extractTiffExifData [x49; x49; x2a; x00]
  = <["error" := JStr "Failed to parse TIFF EXIF data"]>
      (<["format" := JStr "Valid TIFF"]>
         (<["byteOrder" := JStr "Little Endian (II)"]> ∅)).
Proof. vm_compute. reflexivity. Qed.

(** The round trip of the specification: the [Make] tag of a little-endian
    TIFF file, both copies. *)
Example extractTiffExifData_tiffAcme :
  extractTiffExifData tiffAcme
  = <["Make" := JStr "ACME"]>
      (<["format" := JStr "Valid TIFF"]>
         (<["byteOrder" := JStr "Little Endian (II)"]> ∅)) /\
  Copy2.extractTiffExifData tiffAcme = extractTiffExifData tiffAcme.
Proof. split; vm_compute; reflexivity. Qed.

(** ** The two copies of the walker agree *)

Lemma Copy2_getTagValue_eq (dataView : DataView)
    (valueOffset type count tiffOffset : Z) (isBigEndian : bool) :
  Copy2.getTagValue dataView valueOffset type count tiffOffset isBigEndian
  = getTagValue dataView valueOffset type count tiffOffset isBigEndian.
Proof. reflexivity. Qed.

Lemma Copy2_parseIfd_loop_eq (dataView : DataView)
    (ifdOffset tiffOffset : Z) (isBigEndian : bool) (n : nat) :
  forall (i : Z) (st : State),
    Copy2.parseIfd_loop dataView ifdOffset tiffOffset isBigEndian n i st
    = parseIfd_loop dataView ifdOffset tiffOffset isBigEndian n i st.
Proof.
  induction n as [|n IH]; intros i st; simpl; [reflexivity|].
  unfold processIfdEntry, tryRead.
  destruct (if isBigEndian then getUint16 dataView _ false else _)
    as [tag|]; [|reflexivity].
  destruct (if isBigEndian then getUint16 dataView (_ + 2) false else _)
    as [type|]; [|reflexivity].
  destruct (if isBigEndian then getUint32 dataView _ false else _)
    as [count|]; [|reflexivity].
  rewrite IH, Copy2_getTagValue_eq.
  destruct (EXIF_TAGS !! tag); [|reflexivity].
  destruct (getTagValue _ _ _ _ _ _); reflexivity.
Qed.

Lemma Copy2_parseIfd_eq (dataView : DataView)
    (ifdOffset tiffOffset : Z) (isBigEndian : bool) (st : State) :
  Copy2.parseIfd dataView ifdOffset tiffOffset isBigEndian st
  = parseIfd dataView ifdOffset tiffOffset isBigEndian st.
Proof.
  unfold Copy2.parseIfd, parseIfd, tryRead.
  destruct (if isBigEndian then _ else _); [|reflexivity].
  apply Copy2_parseIfd_loop_eq.
Qed.

Lemma Copy2_extractTiffExifData_eq (dataView : DataView) :
  Copy2.extractTiffExifData dataView = extractTiffExifData dataView.
Proof.
  unfold Copy2.extractTiffExifData, extractTiffExifData,
    Copy2.extractTiffExifData_state, extractTiffExifData_state, tryRead.
  destruct (getUint16 dataView 0 false); [|reflexivity].
  destruct (if _ =? _ then getUint16 dataView 2 false else _); [|reflexivity].
  destruct (_ =? 42); [|reflexivity].
  destruct (if _ =? _ then getUint32 dataView 4 false else _); [|reflexivity].
  now rewrite Copy2_parseIfd_eq.
Qed.

(** ** The marker scan *)

Section MarkerScan.

Variable dataView : DataView.

Lemma markerAt_in_range (j second : Z) :
  0 <= j -> j + 1 < byteLength dataView ->
  markerAt dataView j second
  = Ok ((byteAt dataView j =? 0xFF) && (byteAt dataView (j + 1) =? second)).
Proof.
  intros Hlo Hhi. unfold markerAt, andThen, isByte, getUint8.
  replace (inView dataView j 1) with true
    by (symmetry; apply inView_spec; lia).
  replace (inView dataView (j + 1) 1) with true
    by (symmetry; apply inView_spec; lia).
  simpl. destruct (byteAt dataView j =? 255); reflexivity.
Qed.

Lemma markerAt_marker (m : Z) :
  markerIndex dataView m -> markerAt dataView m 0xE1 = Ok true.
Proof.
  intros (Hlo & Hhi & H0 & H1). rewrite markerAt_in_range by lia.
  now rewrite H0, H1.
Qed.

Lemma markerAt_no_marker (j : Z) :
  0 <= j -> j + 1 < byteLength dataView -> ~ markerIndex dataView j ->
  markerAt dataView j 0xE1 = Ok false.
Proof.
  intros Hlo Hhi Hno. rewrite markerAt_in_range by lia. f_equal.
  apply not_true_is_false. intros H. apply andb_true_iff in H as [H0 H1].
  apply Z.eqb_eq in H0, H1. apply Hno. unfold markerIndex. auto.
Qed.

(** First copy: indices without a marker are passed over. *)
Lemma findExifMarker_loop_skip (k : nat) :
  forall (n : nat) (i : Z),
    0 <= i -> i + Z.of_nat k <= Z.max i (byteLength dataView - 1) ->
    (forall j, i <= j < i + Z.of_nat k -> ~ markerIndex dataView j) ->
    findExifMarker_loop dataView (k + n) i
    = findExifMarker_loop dataView n (i + Z.of_nat k).
Proof.
  induction k as [|k IH]; intros n i Hlo Hhi Hno.
  - simpl. now rewrite Z.add_0_r.
  - simpl Nat.add. cbn [findExifMarker_loop].
    rewrite markerAt_no_marker by (try apply Hno; lia). simpl.
    rewrite IH by (try (intros j Hj; apply Hno); lia).
    f_equal. lia.
Qed.

Lemma findExifMarker_loop_none (n : nat) :
  forall i : Z,
    0 <= i -> i + Z.of_nat n <= Z.max i (byteLength dataView - 1) ->
    (forall j, i <= j < i + Z.of_nat n -> ~ markerIndex dataView j) ->
    findExifMarker_loop dataView n i = Ok (-1).
Proof.
  intros i Hlo Hhi Hno.
  replace n with (n + 0)%nat by lia.
  now rewrite findExifMarker_loop_skip.
Qed.

(** Second copy: the same scan, leaving the loop at the first marker. *)
Lemma Copy2_loop_skip (k : nat) :
  forall (n : nat) (i : Z) (st : State),
    0 <= i -> i + Z.of_nat k <= Z.max i (byteLength dataView - 1) ->
    (forall j, i <= j < i + Z.of_nat k -> ~ markerIndex dataView j) ->
    Copy2.extractExifData_loop dataView (k + n) i st
    = Copy2.extractExifData_loop dataView n (i + Z.of_nat k) st.
Proof.
  induction k as [|k IH]; intros n i st Hlo Hhi Hno.
  - simpl. now rewrite Z.add_0_r.
  - simpl Nat.add. cbn [Copy2.extractExifData_loop]. unfold tryRead.
    rewrite markerAt_no_marker by (try apply Hno; lia).
    fold (tryRead (A := bool)).
    rewrite IH by (try (intros j Hj; apply Hno); lia).
    f_equal. lia.
Qed.

Lemma scan_length_none :
  (forall j, ~ markerIndex dataView j) ->
  findExifMarker dataView = Ok (-1) /\
  forall st,
    Copy2.extractExifData_loop dataView
      (Z.to_nat (byteLength dataView - 1)) 0 st = Normal st.
Proof.
  intros Hno. split.
  - apply findExifMarker_loop_none; [lia|lia|auto].
  - intros st.
    replace (Z.to_nat (byteLength dataView - 1))
      with (Z.to_nat (byteLength dataView - 1) + 0)%nat by lia.
    rewrite Copy2_loop_skip; [reflexivity|lia|lia|auto].
Qed.

Lemma findExifMarker_first (m : Z) :
  firstMarker dataView m ->
  findExifMarker dataView
  = let* sig := exifSignatureAt dataView (m + 4) in
    if sig then Ok (m + 4)
    else findExifMarker_loop dataView
           (Z.to_nat (byteLength dataView - 1) - Z.to_nat m - 1) (m + 1).
Proof.
  intros [Hm Hfirst]. pose proof Hm as (Hlo & Hhi & _).
  unfold findExifMarker.
  replace (Z.to_nat (byteLength dataView - 1))
    with (Z.to_nat m
          + S (Z.to_nat (byteLength dataView - 1) - Z.to_nat m - 1))%nat
    at 1 by lia.
  rewrite findExifMarker_loop_skip by (try (intros j Hj; apply Hfirst); lia).
  rewrite Z2Nat.id, Z.add_0_l by lia.
  cbn [findExifMarker_loop]. rewrite (markerAt_marker m Hm). reflexivity.
Qed.

Lemma Copy2_loop_first (m : Z) (st : State) :
  firstMarker dataView m ->
  Copy2.extractExifData_loop dataView
    (Z.to_nat (byteLength dataView - 1)) 0 st
  = Copy2.decodeSegmentAt dataView m st.
Proof.
  intros [Hm Hfirst]. pose proof Hm as (Hlo & Hhi & _).
  replace (Z.to_nat (byteLength dataView - 1))
    with (Z.to_nat m
          + S (Z.to_nat (byteLength dataView - 1) - Z.to_nat m - 1))%nat
    at 1 by lia.
  rewrite Copy2_loop_skip by (try (intros j Hj; apply Hfirst); lia).
  rewrite Z2Nat.id, Z.add_0_l by lia.
  cbn [Copy2.extractExifData_loop]. unfold tryRead at 1.
  rewrite (markerAt_marker m Hm). reflexivity.
Qed.

End MarkerScan.

(** ** The Exif signature test *)

Section Signature.

Variable dataView : DataView.

Lemma exifSignatureAt_true_iff (h : Z) :
  exifSignatureAt dataView h = Ok true <-> exifSignatureBytes dataView h.
Proof.
  unfold exifSignatureAt, andThen, exifSignatureBytes, getUint32, getUint16.
  pose proof (byteAt_range dataView h) as R0.
  pose proof (byteAt_range dataView (h + 1)) as R1.
  pose proof (byteAt_range dataView (h + 2)) as R2.
  pose proof (byteAt_range dataView (h + 3)) as R3.
  pose proof (byteAt_range dataView (h + 4)) as R4.
  pose proof (byteAt_range dataView (h + 4 + 1)) as R5.
  replace (h + 5) with (h + 4 + 1) by lia.
  destruct (inView dataView h 4) eqn:H4; simpl.
  - destruct (Z.eqb_spec
                (16777216 * byteAt dataView h + 65536 * byteAt dataView (h + 1)
                 + 256 * byteAt dataView (h + 2) + byteAt dataView (h + 3))
                1165519206) as [Hw|Hw]; simpl.
    + destruct (inView dataView (h + 4) 2) eqn:H2; simpl.
      * destruct (Z.eqb_spec
                    (256 * byteAt dataView (h + 4)
                     + byteAt dataView (h + 4 + 1)) 0) as [Hz|Hz].
        -- split; [intros _|reflexivity].
           split; [|lia].
           apply inView_spec. apply inView_spec in H4, H2. lia.
        -- split; [discriminate|]. intros (_ & ?). lia.
      * split; [discriminate|]. intros (H6 & _).
        apply inView_spec in H6. apply inView_false in H2. lia.
    + split; [discriminate|]. intros (_ & ?). lia.
  - split; [discriminate|]. intros (H6 & _).
    apply inView_spec in H6. apply inView_false in H4. lia.
Qed.

Lemma exifSignatureAt_inView (h : Z) (b : bool) :
  exifSignatureAt dataView h = Ok b -> inView dataView h 4 = true.
Proof.
  unfold exifSignatureAt, andThen, getUint32.
  destruct (inView dataView h 4); [reflexivity | discriminate].
Qed.

(** The test raises when the first four signature bytes are cut off. *)
Lemma exifSignatureAt_cut (h : Z) :
  inView dataView h 4 = false -> exifSignatureAt dataView h = RangeError.
Proof.
  intros H. unfold exifSignatureAt, andThen, getUint32. now rewrite H.
Qed.

(** The test answers no when all six bytes are there and differ from the
    signature. *)
Lemma exifSignatureAt_mismatch (h : Z) :
  inView dataView h 6 = true -> ~ exifSignatureBytes dataView h ->
  exifSignatureAt dataView h = Ok false.
Proof.
  intros H6 Hno.
  destruct (exifSignatureAt dataView h) as [[|]|] eqn:He; [|reflexivity|].
  - now apply exifSignatureAt_true_iff in He.
  - exfalso. revert He. unfold exifSignatureAt, andThen, getUint32, getUint16.
    replace (inView dataView h 4) with true
      by (symmetry; revert H6; apply inView_narrow; lia).
    replace (inView dataView (h + 4) 2) with true
      by (symmetry; revert H6; apply inView_narrow; lia).
    simpl. destruct (_ =? 1165519206); discriminate.
Qed.

End Signature.

(** ** The JPEG path *)

Lemma Copy2_decodeSegmentAt_signed (dataView : DataView) (m : Z) (st : State) :
  exifSignatureAt dataView (m + 4) = Ok true -> 0 <= m ->
  Copy2.decodeSegmentAt dataView m st = decodeExifAt dataView (m + 4) st.
Proof.
  intros Hsig Hm. unfold Copy2.decodeSegmentAt, decodeExifAt, tryRead.
  pose proof (exifSignatureAt_inView _ _ _ Hsig) as Hin.
  destruct (getUint16_total dataView (m + 2) false) as [len ->].
  { apply inView_spec in Hin. apply inView_spec. lia. }
  rewrite Hsig.
  destruct (getUint16 dataView (m + 4 + 6) false); [|reflexivity].
  destruct (if _ =? _ then getUint32 dataView _ false else _); [|reflexivity].
  apply Copy2_parseIfd_eq.
Qed.

Lemma Copy2_decodeSegmentAt_raises (dataView : DataView) (m : Z) (st : State) :
  exifSignatureAt dataView (m + 4) = RangeError ->
  Copy2.decodeSegmentAt dataView m st = Raised st.
Proof.
  intros Hsig. unfold Copy2.decodeSegmentAt, tryRead. rewrite Hsig.
  destruct (getUint16 dataView (m + 2) false); reflexivity.
Qed.

(** C6, as the code has it.  If the marker sequence [0xFF 0xE1] occurs
    nowhere, the EXIF mapping is empty.  Otherwise let [m] index its first
    occurrence.  If the six bytes at [m + 4] are the signature, the decode
    proceeds with the TIFF sub-stream six bytes later, at [m + 10], in both
    copies.  If the signature test at [m + 4] reads past the end of the
    buffer, the mapping holds the note [Failed to parse EXIF data] and
    nothing else, in both copies.  If the test answers no, the second copy
    returns the empty mapping. *)
Theorem exif_scan_first_marker (dataView : DataView) :
  ((forall j, ~ markerIndex dataView j) ->
   extractExifData dataView = ∅ /\ Copy2.extractExifData dataView = ∅) /\
  (forall m, firstMarker dataView m ->
     (exifSignatureBytes dataView (m + 4) ->
      extractExifData_state dataView
      = catchError "Failed to parse EXIF data"
          (decodeExifAt dataView (m + 4) newState) /\
      Copy2.extractExifData_state dataView
      = catchError "Failed to parse EXIF data"
          (decodeExifAt dataView (m + 4) newState)) /\
     (exifSignatureAt dataView (m + 4) = RangeError ->
      extractExifData dataView
      = {[ "error" := JStr "Failed to parse EXIF data" ]} /\
      Copy2.extractExifData dataView
      = {[ "error" := JStr "Failed to parse EXIF data" ]}) /\
     (exifSignatureAt dataView (m + 4) = Ok false ->
      Copy2.extractExifData dataView = ∅) /\
     (inView dataView (m + 4) 6 = true ->
      ~ exifSignatureBytes dataView (m + 4) ->
      Copy2.extractExifData dataView = ∅)).
Proof.
  split.
  - intros Hno. destruct (scan_length_none dataView Hno) as [H1 H2].
    unfold extractExifData, extractExifData_state, Copy2.extractExifData,
      Copy2.extractExifData_state, tryRead.
    rewrite H1, H2. split; reflexivity.
  - intros m Hm. pose proof Hm as [(Hlo & _) _].
    unfold extractExifData, extractExifData_state, Copy2.extractExifData,
      Copy2.extractExifData_state, tryRead.
    rewrite (findExifMarker_first dataView m Hm).
    rewrite (Copy2_loop_first dataView m newState Hm).
    assert (Hno : exifSignatureAt dataView (m + 4) = Ok false ->
                  exifData
                    (catchError "Failed to parse EXIF data"
                       (Copy2.decodeSegmentAt dataView m newState)) = ∅).
    { intros Hsig. unfold Copy2.decodeSegmentAt, tryRead.
      pose proof (exifSignatureAt_inView _ _ _ Hsig) as Hin.
      destruct (getUint16_total dataView (m + 2) false) as [len ->].
      { apply inView_spec in Hin. apply inView_spec. lia. }
      rewrite Hsig. reflexivity. }
    split; [|split; [|split]].
    + intros Hsig. apply exifSignatureAt_true_iff in Hsig.
      rewrite Copy2_decodeSegmentAt_signed by assumption.
      rewrite Hsig. simpl.
      destruct (Z.eqb_spec (m + 4) (-1)); [lia|]. split; reflexivity.
    + intros Hsig. rewrite Copy2_decodeSegmentAt_raises by assumption.
      rewrite Hsig. split; reflexivity.
    + exact Hno.
    + intros H6 Hbytes. apply Hno. now apply exifSignatureAt_mismatch.
Qed.

Lemma firstMarker_jpegOddMarker : firstMarker jpegOddMarker 0.
Proof.
  split.
  - unfold markerIndex. repeat split; try reflexivity; try lia.
  - intros j Hj (Hlo & _). lia.
Defined.

Lemma exif_scan_first_marker_witness :
  extractExifData_state jpegOddMarker
  = catchError "Failed to parse EXIF data"
      (decodeExifAt jpegOddMarker (0 + 4) newState) /\
  Copy2.extractExifData_state jpegOddMarker
  = catchError "Failed to parse EXIF data"
      (decodeExifAt jpegOddMarker (0 + 4) newState).
Proof.
  destruct (exif_scan_first_marker jpegOddMarker) as [_ H].
  destruct (H 0 firstMarker_jpegOddMarker) as [Hsigned _].
  apply Hsigned. unfold exifSignatureBytes. repeat split; reflexivity.
Defined.

(** C6 as stated fails.  In a stream that ends right after a marker and its
    length field, the first marker is at index 2 and the six signature bytes
    are missing: the mapping is not empty, it holds an error note.  And in
    the first copy a first segment without the signature does not end the
    search: the later Exif segment is decoded. *)
Lemma exif_scan_mapping_not_empty :
  (firstMarker jpegCutSegment 2 /\
   ~ exifSignatureBytes jpegCutSegment (2 + 4) /\
   extractExifData jpegCutSegment
   = {[ "error" := JStr "Failed to parse EXIF data" ]} /\
   Copy2.extractExifData jpegCutSegment
   = {[ "error" := JStr "Failed to parse EXIF data" ]} /\
   extractExifData jpegCutSegment <> ∅) /\
  (firstMarker jpegTwoSegments 2 /\
   exifSignatureAt jpegTwoSegments (2 + 4) = Ok false /\
   extractExifData jpegTwoSegments
   = <["Make" := JStr "A"]> (<["byteOrder" := JStr "Little Endian"]> ∅) /\
   extractExifData jpegTwoSegments <> ∅).
Proof.
  assert (Hnot : forall dv : DataView,
             byteAt dv 1 <> 0xE1 -> byteAt dv 1 <> 0xFF ->
             forall j, j < 2 -> ~ markerIndex dv j).
  { intros dv H0 H1 j Hj (Hlo & _ & Hb & Hb').
    assert (j = 0 \/ j = 1) as [-> | ->] by lia; contradiction. }
  split.
  - split.
    { split; [unfold markerIndex; repeat split; try reflexivity; try lia|].
      apply (Hnot jpegCutSegment); vm_compute; discriminate. }
    split; [intros (H6 & _); discriminate H6|].
    split; [vm_compute; reflexivity|].
    split; [vm_compute; reflexivity|].
    intros H. apply (f_equal (fun m => m !! "error")) in H.
    vm_compute in H. discriminate.
  - split.
    { split; [unfold markerIndex; repeat split; try reflexivity; try lia|].
      apply (Hnot jpegTwoSegments); vm_compute; discriminate. }
    split; [reflexivity|].
    split; [vm_compute; reflexivity|].
    intros H. apply (f_equal (fun m => m !! "Make")) in H.
    vm_compute in H. discriminate.
Qed.

(** ** The byte-order marker on the JPEG path *)

(** C9, as the code has it.  Once the search has found the Exif header at
    [h], the decoder reads the two bytes at [h + 6] and tests them against
    [MM] only: [0x4D4D] selects big-endian, and every other value, [II] or
    not, selects little-endian.  No value is rejected: the byte order is
    recorded in the result and the IFD0 pointer is then read with it. *)
Theorem exif_byte_order_marker (dataView : DataView) (h marker : Z) :
  findExifMarker dataView = Ok h -> h <> -1 ->
  getUint16 dataView (h + 6) false = Ok marker ->
  extractExifData dataView !! "byteOrder"
  = Some (JStr (if marker =? 0x4D4D then "Big Endian" else "Little Endian")) /\
  extractExifData_state dataView
  = catchError "Failed to parse EXIF data"
      ((let! p := readUint32Value dataView (h + 6 + 4) (marker =? 0x4D4D) in
        parseIfd dataView (h + 6 + p) (h + 6) (marker =? 0x4D4D))
         (setProp "byteOrder"
            (JStr (if marker =? 0x4D4D then "Big Endian" else "Little Endian"))
            newState)).
Proof.
  intros Hfind Hh Hmarker.
  assert (Hstate :
    extractExifData_state dataView
    = catchError "Failed to parse EXIF data"
        ((let! p := readUint32Value dataView (h + 6 + 4) (marker =? 0x4D4D) in
          parseIfd dataView (h + 6 + p) (h + 6) (marker =? 0x4D4D))
           (setProp "byteOrder"
              (JStr (if marker =? 0x4D4D then "Big Endian" else "Little Endian"))
              newState))).
  { unfold extractExifData_state, tryRead at 1. rewrite Hfind.
    destruct (Z.eqb_spec h (-1)); [contradiction|]. simpl.
    unfold decodeExifAt, tryRead at 1. rewrite Hmarker. reflexivity. }
  split; [|exact Hstate].
  unfold extractExifData. rewrite Hstate.
  rewrite catchError_other_keys by discriminate.
  unfold tryRead.
  destruct (readUint32Value dataView (h + 6 + 4) (marker =? 0x4D4D)); simpl.
  - rewrite parseIfd_other_keys by apply byteOrder_not_registered.
    simpl. apply lookup_insert_eq.
  - apply lookup_insert_eq.
Qed.

Lemma exif_byte_order_marker_witness :
  extractExifData jpegOddMarker !! "byteOrder"
  = Some (JStr (if 0x5858 =? 0x4D4D then "Big Endian" else "Little Endian")) /\
  extractExifData_state jpegOddMarker
  = catchError "Failed to parse EXIF data"
      ((let! p := readUint32Value jpegOddMarker (4 + 6 + 4) (0x5858 =? 0x4D4D) in
        parseIfd jpegOddMarker (4 + 6 + p) (4 + 6) (0x5858 =? 0x4D4D))
         (setProp "byteOrder"
            (JStr (if 0x5858 =? 0x4D4D then "Big Endian" else "Little Endian"))
            newState)).
Proof.
  apply (exif_byte_order_marker jpegOddMarker 4 0x5858);
    [reflexivity | discriminate | reflexivity].
Defined.

(** C9 as stated fails: a sub-stream that opens with [XX], neither [MM] nor
    [II], is decoded as little-endian, and its [Make] tag is returned. *)
Lemma exif_marker_not_confirmed :
  findExifMarker jpegOddMarker = Ok 4 /\
  getUint16 jpegOddMarker (4 + 6) false = Ok 0x5858 /\
  0x5858 <> 0x4D4D /\ 0x5858 <> 0x4949 /\
  extractExifData jpegOddMarker
  = <["Make" := JStr "A"]> (<["byteOrder" := JStr "Little Endian"]> ∅) /\
  Copy2.extractExifData jpegOddMarker
  = <["Make" := JStr "A"]> (<["byteOrder" := JStr "Little Endian"]> ∅).
Proof.
  split; [reflexivity|]. split; [reflexivity|].
  split; [discriminate|]. split; [discriminate|].
  split; vm_compute; reflexivity.
Qed.

(** ** The two copies of the JPEG path *)

(** The copies return the same state unless the signature test at the first
    marker answers no. *)
Lemma copies_agree_unless_first_marker_unsigned (dataView : DataView) :
  (forall j, ~ markerIndex dataView j) \/
  (exists m, firstMarker dataView m /\
             exifSignatureAt dataView (m + 4) <> Ok false) ->
  Copy2.extractExifData_state dataView = extractExifData_state dataView.
Proof.
  intros [Hno | (m & Hm & Hsig)].
  - destruct (scan_length_none dataView Hno) as [H1 H2].
    unfold extractExifData_state, Copy2.extractExifData_state, tryRead.
    now rewrite H1, H2.
  - pose proof Hm as [(Hlo & _) _].
    unfold extractExifData_state, Copy2.extractExifData_state, tryRead.
    rewrite (findExifMarker_first dataView m Hm).
    rewrite (Copy2_loop_first dataView m newState Hm).
    destruct (exifSignatureAt dataView (m + 4)) as [[|]|] eqn:He.
    + rewrite Copy2_decodeSegmentAt_signed by assumption. simpl.
      destruct (Z.eqb_spec (m + 4) (-1)); [lia | reflexivity].
    + contradiction.
    + now rewrite Copy2_decodeSegmentAt_raises.
Qed.

(** C10 fails on the code.  The stream has two [0xFF 0xE1] segments, and only
    the second carries the Exif signature.  The first copy searches on and
    decodes the second segment; the second copy leaves its loop at the first
    marker and returns the empty mapping. *)
Theorem copies_differ_after_unsigned_segment :
  firstMarker jpegTwoSegments 2 /\
  exifSignatureAt jpegTwoSegments (2 + 4) = Ok false /\
  findExifMarker jpegTwoSegments = Ok 16 /\
  extractExifData jpegTwoSegments
  = <["Make" := JStr "A"]> (<["byteOrder" := JStr "Little Endian"]> ∅) /\
  Copy2.extractExifData jpegTwoSegments = ∅ /\
  extractExifData jpegTwoSegments <> Copy2.extractExifData jpegTwoSegments.
Proof.
  split.
  { split; [unfold markerIndex; repeat split; try reflexivity; try lia|].
    intros j Hj (Hlo & _ & Hb & Hb').
    assert (j = 0 \/ j = 1) as [-> | ->] by lia;
      vm_compute in Hb, Hb'; discriminate. }
  split; [reflexivity|]. split; [reflexivity|].
  split; [vm_compute; reflexivity|].
  split; [vm_compute; reflexivity|].
  intros H. apply (f_equal (fun m => m !! "Make")) in H.
  vm_compute in H. discriminate.
Qed.

(** ** Strings *)

Lemma prefix_iff (p : string) :
  forall s, String.prefix p s = true <-> exists after, s = (p ++ after)%string.
Proof.
  induction p as [|a p IH]; intros s.
  - destruct s; simpl; split; eauto.
  - destruct s as [|b s]; simpl.
    + split; [discriminate|]. intros [after H]. discriminate H.
    + destruct (ascii_dec a b) as [<-|Hne].
      * rewrite IH. split; intros [after H]; exists after.
        -- now rewrite append_cons, H.
        -- rewrite append_cons in H. now injection H.
      * split; [discriminate|]. intros [after H].
        rewrite append_cons in H. injection H as H _. congruence.
Qed.

Lemma occursAt_0 (needle s : string) :
  occursAt needle s 0 <-> String.prefix needle s = true.
Proof.
  rewrite prefix_iff. unfold occursAt. split.
  - intros (before & after & -> & Hlen).
    destruct before; [|discriminate]. eauto.
  - intros [after ->]. exists EmptyString, after. auto.
Qed.

Lemma occursAt_S (needle : string) (c : ascii) (s : string) (k : nat) :
  occursAt needle (String c s) (S k) <-> occursAt needle s k.
Proof.
  unfold occursAt. split.
  - intros (before & after & H & Hlen).
    destruct before as [|b before]; [discriminate|].
    rewrite append_cons in H. injection H as _ ->.
    exists before, after. simpl in Hlen. split; [reflexivity | lia].
  - intros (before & after & -> & Hlen).
    exists (String c before), after. simpl. split; [reflexivity | lia].
Qed.

Lemma occursAt_empty_S (needle : string) (k : nat) :
  ~ occursAt needle EmptyString (S k).
Proof.
  intros (before & after & H & Hlen).
  destruct before; discriminate.
Qed.

Lemma indexOf_from_spec (needle : string) :
  forall (s : string) (i : Z),
    0 <= i ->
    (JS.indexOf_from s needle i = -1 /\ forall k, ~ occursAt needle s k) \/
    (exists k : nat,
       JS.indexOf_from s needle i = i + Z.of_nat k /\
       firstOccurrence needle s k).
Proof.
  induction s as [|c s IH]; intros i Hi; cbn [JS.indexOf_from].
  - destruct (String.prefix needle EmptyString) eqn:Hp.
    + right. exists 0%nat. split; [lia|]. split; [now apply occursAt_0|].
      intros j Hj. lia.
    + left. split; [reflexivity|]. intros [|k].
      * rewrite occursAt_0. congruence.
      * apply occursAt_empty_S.
  - destruct (String.prefix needle (String c s)) eqn:Hp.
    + right. exists 0%nat. split; [lia|]. split; [now apply occursAt_0|].
      intros j Hj. lia.
    + destruct (IH (i + 1)) as [[Hm Hno] | (k & Hk & Hocc & Hfirst)]; [lia| |].
      * left. split; [exact Hm|]. intros [|k].
        -- rewrite occursAt_0. congruence.
        -- rewrite occursAt_S. apply Hno.
      * right. exists (S k). split; [lia|]. split; [now apply occursAt_S|].
        intros [|j] Hj.
        -- rewrite occursAt_0. congruence.
        -- rewrite occursAt_S. apply Hfirst. lia.
Qed.

Lemma indexOf_found_iff (needle s : string) :
  JS.indexOf s needle <> -1 <-> exists k, occursAt needle s k.
Proof.
  unfold JS.indexOf.
  destruct (indexOf_from_spec needle s 0) as [[Hm Hno] | (k & Hk & Hocc & _)];
    [lia| |].
  - split; [congruence|]. intros [k Hk]. now apply Hno in Hk.
  - split; [eauto|]. intros _. lia.
Qed.

Lemma indexOf_first (needle s : string) :
  JS.indexOf s needle <> -1 ->
  exists k : nat,
    JS.indexOf s needle = Z.of_nat k /\ firstOccurrence needle s k.
Proof.
  unfold JS.indexOf. intros H.
  destruct (indexOf_from_spec needle s 0) as [[Hm _] | (k & Hk & Hfirst)];
    [lia|contradiction|].
  exists k. split; [lia | assumption].
Qed.

Lemma substring_length_le (s : string) :
  forall n m, (String.length (String.substring n m s) <= m)%nat.
Proof.
  induction s as [|c s IH]; intros [|n] [|m]; simpl; try lia.
  - specialize (IH 0%nat m). lia.
  - apply IH.
  - apply IH.
Qed.

(** With ordered, non-negative indices [s.substring(a, b)] is the part of [s]
    from [a] up to [b] or the end of [s]. *)
Lemma JS_substring_ordered (s : string) (a b : Z) :
  0 <= a <= b -> a <= Z.of_nat (String.length s) ->
  JS.substring s a b
  = String.substring (Z.to_nat a)
      (Z.to_nat (Z.min b (Z.of_nat (String.length s)) - a)) s.
Proof.
  intros Hab Ha. unfold JS.substring.
  replace (Z.min (Z.max a 0) (Z.of_nat (String.length s))) with a by lia.
  replace (Z.min (Z.max b 0) (Z.of_nat (String.length s)))
    with (Z.min b (Z.of_nat (String.length s))) by lia.
  replace (Z.min a (Z.min b (Z.of_nat (String.length s)))) with a by lia.
  replace (Z.max a (Z.min b (Z.of_nat (String.length s))))
    with (Z.min b (Z.of_nat (String.length s))) by lia.
  reflexivity.
Qed.

Lemma JS_substring_0_length (s : string) (n : Z) :
  0 <= n -> Z.of_nat (String.length (JS.substring s 0 n)) <= n.
Proof.
  intros Hn. unfold JS.substring.
  match goal with
  | |- context [String.substring ?a ?m s] =>
      pose proof (substring_length_le s a m)
  end.
  lia.
Qed.

(** ** The text view of the buffer *)

Lemma fromCharCode_byte (b : byte) :
  fromCharCode (Z.of_N (Byte.to_N b)) = ascii_of_byte b.
Proof. unfold fromCharCode. now rewrite N2Z.id, ascii_of_byte_via_N. Qed.

Lemma convertBufferToString_loop_spec (uint8Array : DataView) (n : nat) :
  forall (i : Z) (acc : string),
    0 <= i -> i + Z.of_nat n <= byteLength uint8Array ->
    convertBufferToString_loop uint8Array n i acc
    = (acc ++ string_of_list_ascii
                (ascii_of_byte <$> take n (drop (Z.to_nat i) uint8Array)))%string.
Proof.
  induction n as [|n IH]; intros i acc Hlo Hhi.
  - simpl. now rewrite append_nil_r.
  - cbn [convertBufferToString_loop].
    destruct (lookup_lt_is_Some_2 uint8Array (Z.to_nat i)) as [b Hb].
    { unfold byteLength in Hhi. lia. }
    rewrite IH by lia.
    replace (Z.to_nat (i + 1)) with (S (Z.to_nat i)) by lia.
    rewrite (drop_S _ _ _ Hb). cbn [take fmap list_fmap string_of_list_ascii].
    unfold byteAt. rewrite Hb, fromCharCode_byte, append_assoc.
    reflexivity.
Qed.

Lemma convertBufferToString_text (arrayBuffer : DataView) :
  convertBufferToString arrayBuffer
  = string_of_list_ascii
      (ascii_of_byte <$> take (Z.to_nat 65536) arrayBuffer).
Proof.
  unfold convertBufferToString.
  rewrite convertBufferToString_loop_spec by (unfold byteLength; lia).
  change (String.append EmptyString ?t) with t.
  change (drop (Z.to_nat 0) arrayBuffer) with arrayBuffer.
  do 2 f_equal.
  destruct (Z_le_gt_dec (byteLength arrayBuffer) 65536) as [Hle|Hgt].
  - unfold byteLength in *. rewrite !take_ge by lia. reflexivity.
  - f_equal. lia.
Qed.

(** ** The XMP packet scan *)

Lemma extractXmpMetadata_other_keys (xmpContent key : string) :
  key <> "title" -> key <> "creator" ->
  extractXmpMetadata xmpContent !! key = None.
Proof.
  intros Ht Hc. unfold extractXmpMetadata.
  destruct (XMP_TITLE_REGEX_exec xmpContent);
    destruct (XMP_CREATOR_REGEX_exec xmpContent);
    rewrite ?lookup_insert_ne by congruence; apply lookup_empty.
Qed.

Lemma extractXmpData_unfold (arrayBuffer : DataView) :
  extractXmpData arrayBuffer
  = processXmpPacket (convertBufferToString arrayBuffer).
Proof. unfold extractXmpData, Object_assign. apply (right_id_L ∅ (∪)). Qed.

Lemma processXmpPacket_found (fileString : string) :
  JS.indexOf fileString xpacketBegin <> -1 ->
  JS.indexOf fileString xpacketEnd <> -1 ->
  processXmpPacket fileString !! "detected" = Some (JBool true) /\
  processXmpPacket fileString !! "rawXMP"
  = Some (JStr (JS.substring
                  (JS.substring fileString (JS.indexOf fileString xpacketBegin)
                     (JS.indexOf fileString xpacketEnd + 20)) 0 500
                ++ "...")%string) /\
  processXmpPacket fileString !! "note" = None.
Proof.
  intros Hb He. unfold processXmpPacket.
  fold xpacketBegin xpacketEnd.
  destruct (Z.eqb_spec (JS.indexOf fileString xpacketBegin) (-1));
    [contradiction|].
  destruct (Z.eqb_spec (JS.indexOf fileString xpacketEnd) (-1));
    [contradiction|].
  simpl. unfold Object_assign.
  rewrite !lookup_union_r by (apply extractXmpMetadata_other_keys; discriminate).
  repeat split.
Qed.

Lemma processXmpPacket_not_found (fileString : string) :
  JS.indexOf fileString xpacketBegin = -1 \/
  JS.indexOf fileString xpacketEnd = -1 ->
  processXmpPacket fileString
  = <["note" := JStr "No XMP packet found in image"]>
      (<["detected" := JBool false]> ∅).
Proof.
  intros H. unfold processXmpPacket. fold xpacketBegin xpacketEnd.
  destruct (Z.eqb_spec (JS.indexOf fileString xpacketBegin) (-1));
    [reflexivity|].
  destruct (Z.eqb_spec (JS.indexOf fileString xpacketEnd) (-1));
    [reflexivity|].
  destruct H; contradiction.
Qed.

(** C8, as the code has it.  The text searched is the byte-for-byte text view
    of the first 65536 bytes.  The detected flag is [true] exactly when both
    delimiters occur in it, in whatever order.  When both occur, with [i] and
    [j] the indices of the first occurrence of the begin and of the end
    delimiter, the raw excerpt is the fragment [substring(i, j + 20)] cut to
    its first 500 characters, followed by [...]; that fragment runs from [i]
    up to [j + 20] (or the end of the text) when [i <= j + 20]; no note is
    stored.  When they do not both occur, the result is exactly the flag
    [false] and the fixed note. *)
Theorem xmp_packet_detection (arrayBuffer : DataView) :
  let fileString := convertBufferToString arrayBuffer in
  let bothOccur :=
    (exists i, occursAt xpacketBegin fileString i) /\
    (exists j, occursAt xpacketEnd fileString j) in
  fileString
  = string_of_list_ascii (ascii_of_byte <$> take (Z.to_nat 65536) arrayBuffer) /\
  (extractXmpData arrayBuffer !! "detected" = Some (JBool true) <-> bothOccur) /\
  (bothOccur ->
   exists i j : nat,
     firstOccurrence xpacketBegin fileString i /\
     firstOccurrence xpacketEnd fileString j /\
     let fragment :=
       JS.substring fileString (Z.of_nat i) (Z.of_nat j + 20) in
     let excerpt := JS.substring fragment 0 500 in
     extractXmpData arrayBuffer !! "rawXMP"
     = Some (JStr (excerpt ++ "...")%string) /\
     (String.length excerpt <= 500)%nat /\
     (Z.of_nat i <= Z.of_nat j + 20 ->
      Z.of_nat i <= Z.of_nat (String.length fileString) ->
      fragment
      = String.substring i
          (Z.to_nat (Z.min (Z.of_nat j + 20)
                       (Z.of_nat (String.length fileString)) - Z.of_nat i))
          fileString) /\
     extractXmpData arrayBuffer !! "note" = None) /\
  (~ bothOccur ->
   extractXmpData arrayBuffer
   = <["note" := JStr "No XMP packet found in image"]>
       (<["detected" := JBool false]> ∅)).
Proof.
  intros fileString bothOccur.
  split; [apply convertBufferToString_text|].
  rewrite extractXmpData_unfold. fold fileString.
  assert (Hboth : bothOccur <->
                  JS.indexOf fileString xpacketBegin <> -1 /\
                  JS.indexOf fileString xpacketEnd <> -1).
  { unfold bothOccur. now rewrite !indexOf_found_iff. }
  split; [|split].
  - rewrite Hboth. split.
    + intros Hdet.
      destruct (Z.eq_dec (JS.indexOf fileString xpacketBegin) (-1)) as [Hb|Hb].
      { rewrite processXmpPacket_not_found in Hdet by auto. discriminate Hdet. }
      destruct (Z.eq_dec (JS.indexOf fileString xpacketEnd) (-1)) as [He|He].
      { rewrite processXmpPacket_not_found in Hdet by auto. discriminate Hdet. }
      auto.
    + intros [Hb He]. now apply processXmpPacket_found.
  - intros H. apply Hboth in H as [Hb He].
    destruct (indexOf_first _ _ Hb) as (i & Hi & Hfi).
    destruct (indexOf_first _ _ He) as (j & Hj & Hfj).
    destruct (processXmpPacket_found fileString Hb He) as (_ & Hraw & Hnote).
    exists i, j. split; [exact Hfi|]. split; [exact Hfj|].
    rewrite Hi, Hj in Hraw. cbv zeta.
    split; [exact Hraw|]. split.
    { pose proof (JS_substring_0_length
                    (JS.substring fileString (Z.of_nat i) (Z.of_nat j + 20))
                    500). lia. }
    split; [|exact Hnote].
    intros Hord Hlen. rewrite JS_substring_ordered by lia.
    now rewrite Nat2Z.id.
  - intros Hno. apply processXmpPacket_not_found.
    destruct (Z.eq_dec (JS.indexOf fileString xpacketBegin) (-1)); [auto|].
    destruct (Z.eq_dec (JS.indexOf fileString xpacketEnd) (-1)); [auto|].
    exfalso. apply Hno, Hboth. auto.
Qed.

Lemma xmp_packet_detection_witness :
  extractXmpData xmpPacket !! "detected" = Some (JBool true).
Proof.
  destruct (xmp_packet_detection xmpPacket) as (_ & [_ Hdet] & _).
  apply Hdet. split.
  - exists 2%nat, "ab", "'x'?><dc:title>T</dc:title><?xpacket end='w'?>cd".
    split; reflexivity.
  - exists 45%nat, "ab<?xpacket begin='x'?><dc:title>T</dc:title>", "'w'?>cd".
    split; reflexivity.
Defined.

Example extractXmpData_xmpPacket :
  extractXmpData xmpPacket
  = <["title" := JStr "T"]>
      (<["detected" := JBool true]>
         (<["rawXMP" :=
              JStr "<?xpacket begin='x'?><dc:title>T</dc:title><?xpacket end='w'?>c..."]>
            ∅)).
Proof. vm_compute. reflexivity. Qed.

(** C8 as stated fails: the text holds the end delimiter and then the begin
    delimiter, so no begin delimiter occurs before an end delimiter, and yet
    the packet is reported as detected, with an excerpt. *)
Lemma xmp_detected_in_reverse_order :
  extractXmpData xmpReversed !! "detected" = Some (JBool true) /\
  extractXmpData xmpReversed !! "rawXMP" = Some (JStr "<?xpac...") /\
  ~ (exists i j : nat,
       occursAt xpacketBegin (convertBufferToString xmpReversed) i /\
       occursAt xpacketEnd (convertBufferToString xmpReversed) j /\
       (i < j)%nat).
Proof.
  split; [vm_compute; reflexivity|]. split; [vm_compute; reflexivity|].
  intros (i & j & _ & Hj & Hlt).
  destruct j as [|j]; [lia|]. clear Hlt.
  set (s := convertBufferToString xmpReversed) in Hj.
  vm_compute in s. subst s.
  apply occursAt_S in Hj.
  repeat (destruct j as [|j];
          [apply occursAt_0 in Hj; vm_compute in Hj; discriminate Hj
          |apply occursAt_S in Hj]).
  destruct j as [|j].
  - apply occursAt_0 in Hj. vm_compute in Hj. discriminate Hj.
  - now apply occursAt_empty_S in Hj.
Qed.

(** * Further properties *)

(** ** The byte reader, continued *)

Lemma getUint32_range (dataView : DataView) (off : Z) (le : bool) (v : Z) :
  getUint32 dataView off le = Ok v -> 0 <= v < 4294967296.
Proof.
  unfold getUint32. destruct (inView _ _ _); [|discriminate].
  intros [= <-].
  pose proof (byteAt_range dataView off).
  pose proof (byteAt_range dataView (off + 1)).
  pose proof (byteAt_range dataView (off + 2)).
  pose proof (byteAt_range dataView (off + 3)).
  destruct le; lia.
Qed.

Lemma split_low_byte (q r : Z) :
  0 <= r < 256 -> (256 * q + r) / 256 = q /\ (256 * q + r) mod 256 = r.
Proof. intros H. Z.to_euclidean_division_equations. lia. Qed.

Lemma byteSwap32_bytes (b0 b1 b2 b3 : Z) :
  0 <= b0 < 256 -> 0 <= b1 < 256 -> 0 <= b2 < 256 -> 0 <= b3 < 256 ->
  byteSwap32 (16777216 * b0 + 65536 * b1 + 256 * b2 + b3)
  = b0 + 256 * b1 + 65536 * b2 + 16777216 * b3.
Proof.
  intros H0 H1 H2 H3. unfold byteSwap32.
  set (v := 16777216 * b0 + 65536 * b1 + 256 * b2 + b3).
  destruct (split_low_byte (65536 * b0 + 256 * b1 + b2) b3 H3) as [Hd1 Hm1].
  destruct (split_low_byte (256 * b0 + b1) b2 H2) as [Hd2 Hm2].
  destruct (split_low_byte b0 b1 H1) as [Hd3 Hm3].
  replace (256 * (65536 * b0 + 256 * b1 + b2) + b3) with v in * by (unfold v; lia).
  replace (65536 * b0 + 256 * b1 + b2) with (256 * (256 * b0 + b1) + b2) in *
    by lia.
  assert (E2 : v / 65536 = 256 * b0 + b1).
  { change 65536 with (256 * 256). rewrite <- Z.div_div by lia.
    now rewrite Hd1, Hd2. }
  assert (E3 : v / 16777216 = b0).
  { change 16777216 with (65536 * 256). rewrite <- Z.div_div by lia.
    now rewrite E2, Hd3. }
  rewrite Hm1, Hd1, Hm2, E2, Hm3, E3. lia.
Qed.

(** X1. With [isBigEndian] set, [readUint16Value] and [readUint32Value]
    return the value whose most significant byte is the byte at the offset;
    with it unset they return that value with its bytes reversed.  Either
    way the read returns exactly when its 2 or 4 bytes lie inside the buffer
    and raises otherwise. *)
Theorem reads_differ_by_byte_order_only (dataView : DataView) (off : Z) :
  (inView dataView off 2 = true ->
   exists v,
     v = 256 * byteAt dataView off + byteAt dataView (off + 1) /\
     0 <= v < 65536 /\
     readUint16Value dataView off true = Ok v /\
     readUint16Value dataView off false = Ok (byteSwap16 v)) /\
  (inView dataView off 4 = true ->
   exists v,
     v = 16777216 * byteAt dataView off + 65536 * byteAt dataView (off + 1)
         + 256 * byteAt dataView (off + 2) + byteAt dataView (off + 3) /\
     0 <= v < 4294967296 /\
     readUint32Value dataView off true = Ok v /\
     readUint32Value dataView off false = Ok (byteSwap32 v)) /\
  (inView dataView off 2 = false ->
   forall isBigEndian,
     readUint16Value dataView off isBigEndian = RangeError) /\
  (inView dataView off 4 = false ->
   forall isBigEndian,
     readUint32Value dataView off isBigEndian = RangeError).
Proof.
  pose proof (byteAt_range dataView off).
  pose proof (byteAt_range dataView (off + 1)).
  pose proof (byteAt_range dataView (off + 2)).
  pose proof (byteAt_range dataView (off + 3)).
  unfold readUint16Value, readUint32Value, getUint16, getUint32, byteSwap16.
  repeat split.
  - intros ->. eexists. split; [reflexivity|].
    split; [lia|]. split; [reflexivity|].
    f_equal. destruct (split_low_byte (byteAt dataView off)
                         (byteAt dataView (off + 1))) as [-> ->]; lia.
  - intros ->. eexists. split; [reflexivity|].
    split; [lia|]. split; [reflexivity|].
    f_equal. now rewrite byteSwap32_bytes.
  - intros -> be. now destruct be.
  - intros -> be. now destruct be.
Qed.

Lemma reads_differ_by_byte_order_only_witness :
  exists v,
    v = 256 * byteAt tiffBadMagic 2 + byteAt tiffBadMagic (2 + 1) /\
    0 <= v < 65536 /\
    readUint16Value tiffBadMagic 2 true = Ok v /\
    readUint16Value tiffBadMagic 2 false = Ok (byteSwap16 v).
Proof.
  destruct (reads_differ_by_byte_order_only tiffBadMagic 2) as [H _].
  apply H. reflexivity.
Defined.

Example readUint16Value_both_orders :
  readUint16Value tiffBadMagic 2 true = Ok 43 /\
  readUint16Value tiffBadMagic 2 false = Ok 11008.
Proof. split; reflexivity. Qed.

(** ** The shape of decoded values *)

Lemma getTagValue_decodedValue (dataView : DataView)
    (valueOffset type count tiffOffset : Z) (isBigEndian : bool) (v : JsValue) :
  getTagValue dataView valueOffset type count tiffOffset isBigEndian = Ok v ->
  decodedValue v.
Proof.
  unfold getTagValue.
  destruct (calculateActualOffset _ _ _ _ _ _) as [a|]; simpl; [|discriminate].
  destruct (Z.eq_dec type 1) as [->|H1].
  { destruct (getUint8 dataView a) as [n|] eqn:Hn; simpl; [|discriminate].
    intros [= <-]. apply getUint8_Ok in Hn as [_ ->].
    pose proof (byteAt_range dataView a).
    right; left. eexists. split; [reflexivity | lia]. }
  destruct (Z.eq_dec type 2) as [->|H2].
  { destruct (readAsciiString dataView a count) as [s|] eqn:Hs; simpl;
      [|discriminate].
    intros [= <-]. apply readAsciiString_Ok in Hs as [Hlen _].
    right; right; left. exists s. split; [reflexivity | lia]. }
  destruct (Z.eq_dec type 3) as [->|H3].
  { destruct (readUint16Value dataView a isBigEndian) as [n|] eqn:Hn; simpl;
      [|discriminate].
    intros [= <-]. unfold readUint16Value in Hn.
    assert (0 <= n < 65536) by (destruct isBigEndian; eapply getUint16_range; eauto).
    right; left. eexists. split; [reflexivity | lia]. }
  destruct (Z.eq_dec type 4) as [->|H4].
  { destruct (readUint32Value dataView a isBigEndian) as [n|] eqn:Hn; simpl;
      [|discriminate].
    intros [= <-]. unfold readUint32Value in Hn.
    assert (0 <= n < 4294967296)
      by (destruct isBigEndian; eapply getUint32_range; eauto).
    right; left. eexists. split; [reflexivity | lia]. }
  destruct (Z.eq_dec type 5) as [->|H5].
  { unfold readRationalValue.
    destruct (readUint32Value dataView a isBigEndian) as [n|] eqn:Hn; simpl;
      [|discriminate].
    destruct (readUint32Value dataView (a + 4) isBigEndian) as [d|] eqn:Hd;
      simpl; [|discriminate].
    intros [= <-]. unfold readUint32Value in Hn, Hd.
    assert (0 <= n < 4294967296)
      by (destruct isBigEndian; eapply getUint32_range; eauto).
    assert (0 <= d < 4294967296)
      by (destruct isBigEndian; eapply getUint32_range; eauto).
    destruct (Z.eqb_spec d 0); simpl.
    - right; left. exists 0. split; [reflexivity | lia].
    - right; right; right. exists n, d. split; [reflexivity | lia]. }
  rewrite dispatch_default by (unfold handledType; lia).
  intros [= <-]. left. reflexivity.
Qed.

Lemma processIfdEntry_decodedValue (dataView : DataView)
    (tagOffset tiffOffset : Z) (isBigEndian : bool) (st : State) :
  (forall name v, name ∈ registryNames ->
                  exifData st !! name = Some v -> decodedValue v) ->
  forall name v,
    name ∈ registryNames ->
    exifData (finalState (processIfdEntry dataView tagOffset tiffOffset
                            isBigEndian st)) !! name = Some v ->
    decodedValue v.
Proof.
  intros Hinv name v Hname. unfold processIfdEntry, tryRead.
  destruct (if isBigEndian then getUint16 dataView tagOffset false else _)
    as [tag|]; cbv beta iota; [|now apply Hinv].
  destruct (if isBigEndian then getUint16 dataView (tagOffset + 2) false else _)
    as [type|]; cbv beta iota; [|now apply Hinv].
  destruct (if isBigEndian then getUint32 dataView (tagOffset + 4) false else _)
    as [count|]; cbv beta iota; [|now apply Hinv].
  destruct (EXIF_TAGS !! tag) as [key|]; cbv beta iota; [|now apply Hinv].
  destruct (getTagValue _ _ _ _ _ _) as [value|] eqn:Hv; cbv beta iota;
    [|now apply Hinv].
  cbn [finalState setProp exifData].
  rewrite lookup_insert. case_decide as Hk.
  - intros [= <-]. eapply getTagValue_decodedValue; eauto.
  - now apply Hinv.
Qed.

Lemma parseIfd_decodedValue (dataView : DataView)
    (ifdOffset tiffOffset : Z) (isBigEndian : bool) (st : State) :
  (forall name v, name ∈ registryNames ->
                  exifData st !! name = Some v -> decodedValue v) ->
  forall name v,
    name ∈ registryNames ->
    exifData (finalState (parseIfd dataView ifdOffset tiffOffset
                            isBigEndian st)) !! name = Some v ->
    decodedValue v.
Proof.
  unfold parseIfd, tryRead.
  destruct (if isBigEndian then _ else _) as [tagCount|]; simpl; [|auto].
  generalize 0 as i. revert st.
  induction (Z.to_nat (Z.min tagCount 50)) as [|n IH]; intros st i Hinv;
    simpl; [auto|].
  pose proof (processIfdEntry_decodedValue dataView (ifdOffset + 2 + i * 12)
                tiffOffset isBigEndian st Hinv) as Hp.
  destruct (processIfdEntry _ _ _ _ _) as [st1|st1]; simpl in *.
  - now apply IH.
  - exact Hp.
Qed.

(** ** Invariants of the result object *)

Section Invariant.

(** A property of the state that holds at the start, survives the writes the
    paths make themselves, and survives each entry of the walker, holds of
    the result of every path. *)

Variable P : State -> Prop.
Hypothesis P_new : P newState.
Hypothesis P_set :
  forall key s st, key ∈ pathKeys -> P st -> P (setProp key (JStr s) st).
Hypothesis P_entry :
  forall dataView tagOffset tiffOffset isBigEndian st,
    P st ->
    P (finalState (processIfdEntry dataView tagOffset tiffOffset isBigEndian st)).

Lemma P_byteOrder (s : string) (st : State) :
  P st -> P (setProp "byteOrder" (JStr s) st).
Proof. apply P_set. unfold pathKeys. left. Qed.

Lemma P_format (s : string) (st : State) :
  P st -> P (setProp "format" (JStr s) st).
Proof. apply P_set. unfold pathKeys. right; left. Qed.

Lemma P_error (s : string) (st : State) :
  P st -> P (setProp "error" (JStr s) st).
Proof. apply P_set. unfold pathKeys. right; right; left. Qed.

Lemma P_catchError (message : string) (o : Outcome) :
  P (finalState o) -> P (catchError message o).
Proof. destruct o; simpl; [auto | apply P_error]. Qed.

Lemma P_parseIfd_loop (dataView : DataView) (ifdOffset tiffOffset : Z)
    (isBigEndian : bool) (n : nat) :
  forall (i : Z) (st : State),
    P st ->
    P (finalState (parseIfd_loop dataView ifdOffset tiffOffset isBigEndian
                     n i st)).
Proof.
  induction n as [|n IH]; intros i st Hst; cbn [parseIfd_loop]; [exact Hst|].
  pose proof (P_entry dataView (ifdOffset + 2 + i * 12) tiffOffset
                isBigEndian st Hst) as Hp.
  destruct (processIfdEntry _ _ _ _ _) as [st1|st1]; cbn [finalState] in *.
  - now apply IH.
  - exact Hp.
Qed.

Lemma P_parseIfd (dataView : DataView) (ifdOffset tiffOffset : Z)
    (isBigEndian : bool) (st : State) :
  P st ->
  P (finalState (parseIfd dataView ifdOffset tiffOffset isBigEndian st)).
Proof.
  intros Hst. unfold parseIfd, tryRead.
  destruct (if isBigEndian then _ else _); [|exact Hst].
  now apply P_parseIfd_loop.
Qed.

Lemma P_decodeExifAt (dataView : DataView) (h : Z) (st : State) :
  P st -> P (finalState (decodeExifAt dataView h st)).
Proof.
  intros Hst. unfold decodeExifAt, tryRead.
  destruct (getUint16 dataView (h + 6) false) as [marker|]; [|exact Hst].
  destruct (if marker =? 19789 then _ else _);
    [apply P_parseIfd|]; now apply P_byteOrder.
Qed.

Lemma P_extractExifData (dataView : DataView) :
  P (extractExifData_state dataView).
Proof.
  unfold extractExifData_state. apply P_catchError. unfold tryRead.
  destruct (findExifMarker dataView) as [h|]; [|exact P_new].
  destruct (negb (h =? -1)); [|exact P_new].
  now apply P_decodeExifAt.
Qed.

Lemma P_extractTiffExifData (dataView : DataView) :
  P (extractTiffExifData_state dataView).
Proof.
  unfold extractTiffExifData_state. apply P_catchError. unfold tryRead.
  destruct (getUint16 dataView 0 false) as [byteOrder|]; [|exact P_new].
  destruct (if byteOrder =? 19789 then getUint16 dataView 2 false else _)
    as [magicNumber|]; [|now apply P_byteOrder].
  destruct (magicNumber =? 42).
  - destruct (if byteOrder =? 19789 then getUint32 dataView 4 false else _).
    + now apply P_parseIfd, P_format, P_byteOrder.
    + now apply P_format, P_byteOrder.
  - now apply P_error, P_byteOrder.
Qed.

Lemma P_Copy2_extractExifData (dataView : DataView) :
  P (Copy2.extractExifData_state dataView).
Proof.
  unfold Copy2.extractExifData_state. apply P_catchError.
  generalize 0 as i.
  induction (Z.to_nat (byteLength dataView - 1)) as [|n IH]; intros i;
    cbn [Copy2.extractExifData_loop]; [exact P_new|].
  unfold tryRead at 1.
  destruct (markerAt dataView i 225) as [[|]|]; [|apply IH|exact P_new].
  unfold Copy2.decodeSegmentAt, tryRead.
  destruct (getUint16 dataView (i + 2) false); [|exact P_new].
  destruct (exifSignatureAt dataView (i + 4)) as [[|]|];
    [|exact P_new|exact P_new].
  destruct (getUint16 dataView (i + 4 + 6) false) as [marker|];
    [|exact P_new].
  destruct (if marker =? 19789 then _ else _).
  - rewrite Copy2_parseIfd_eq. now apply P_parseIfd, P_byteOrder.
  - now apply P_byteOrder.
Qed.

End Invariant.

Lemma pathKeys_not_registered (key : string) :
  key ∈ pathKeys -> key ∉ registryNames.
Proof.
  unfold pathKeys. intros Hk Hr.
  apply registryNames_not_reserved in Hr as (Hb & Hf & He).
  repeat (apply elem_of_cons in Hk as [->|Hk]; [congruence|]).
  now apply elem_of_nil in Hk.
Qed.

Lemma tagsDecoded_holds :
  tagsDecoded newState /\
  (forall key s st, key ∈ pathKeys -> tagsDecoded st ->
                    tagsDecoded (setProp key (JStr s) st)) /\
  (forall dataView tagOffset tiffOffset isBigEndian st,
     tagsDecoded st ->
     tagsDecoded (finalState (processIfdEntry dataView tagOffset tiffOffset
                                isBigEndian st))).
Proof.
  split; [|split].
  - intros name v _ H. cbn in H. rewrite lookup_empty in H. discriminate.
  - intros key s st Hk Hst name v Hname. cbn [setProp exifData].
    rewrite lookup_insert_ne.
    + now apply Hst.
    + intros ->. now apply pathKeys_not_registered in Hk.
  - intros dataView tagOffset tiffOffset isBigEndian st Hst.
    exact (processIfdEntry_decodedValue _ _ _ _ st Hst).
Qed.

Lemma keysWithin_holds :
  keysWithin newState /\
  (forall key s st, key ∈ pathKeys -> keysWithin st ->
                    keysWithin (setProp key (JStr s) st)) /\
  (forall dataView tagOffset tiffOffset isBigEndian st,
     keysWithin st ->
     keysWithin (finalState (processIfdEntry dataView tagOffset tiffOffset
                               isBigEndian st))).
Proof.
  split; [|split].
  - intros key [v H]. cbn in H. rewrite lookup_empty in H. discriminate.
  - intros key s st Hk Hst key'. cbn [setProp exifData].
    rewrite lookup_insert. case_decide as He.
    + intros _. subst key'. unfold exifKeys, pathKeys in *.
      repeat (apply elem_of_cons in Hk as [->|Hk];
              [repeat first [left; reflexivity | right]|]).
      now apply elem_of_nil in Hk.
    + apply Hst.
  - intros dataView tagOffset tiffOffset isBigEndian st Hst key Hsome.
    destruct (decide (key ∈ registryNames)) as [Hr|Hr].
    + unfold exifKeys. now do 3 right.
    + rewrite processIfdEntry_other_keys in Hsome by assumption.
      now apply Hst.
Qed.

(** X2. Whatever the buffer, every registry tag in the result of either EXIF
    path, in either copy, is [null], a number from 0 to [2^32 - 1], a string
    of at most 100 characters, or a quotient of two such numbers with a
    non-zero denominator. *)
Theorem decoded_tags_are_well_shaped (dataView : DataView) (name : string)
    (v : JsValue) :
  name ∈ registryNames ->
  extractExifData dataView !! name = Some v \/
  extractTiffExifData dataView !! name = Some v \/
  Copy2.extractExifData dataView !! name = Some v \/
  Copy2.extractTiffExifData dataView !! name = Some v ->
  decodedValue v.
Proof.
  destruct tagsDecoded_holds as (Hn & Hs & He).
  intros Hname [H|[H|[H|H]]].
  - exact (P_extractExifData tagsDecoded Hn Hs He dataView name v Hname H).
  - exact (P_extractTiffExifData tagsDecoded Hn Hs He dataView name v Hname H).
  - exact (P_Copy2_extractExifData tagsDecoded Hn Hs He dataView name v Hname H).
  - rewrite Copy2_extractTiffExifData_eq in H.
    exact (P_extractTiffExifData tagsDecoded Hn Hs He dataView name v Hname H).
Qed.

Lemma decoded_tags_are_well_shaped_witness : decodedValue (JStr "ACME").
Proof.
  apply (decoded_tags_are_well_shaped tiffAcme "Make" (JStr "ACME")).
  - unfold registryNames. left.
  - right; left. vm_compute. reflexivity.
Defined.

(** X3. Whatever the buffer, the result of either EXIF path, in either copy,
    holds no property other than [byteOrder], [format], [error] and the
    eleven names of the tag registry. *)
Theorem result_keys_are_known (dataView : DataView) (key : string) :
  key ∉ exifKeys ->
  extractExifData dataView !! key = None /\
  extractTiffExifData dataView !! key = None /\
  Copy2.extractExifData dataView !! key = None /\
  Copy2.extractTiffExifData dataView !! key = None.
Proof.
  destruct keysWithin_holds as (Hn & Hs & He).
  intros Hkey.
  assert (Hnone : forall st, keysWithin st -> exifData st !! key = None).
  { intros st Hst. destruct (exifData st !! key) eqn:Hl; [|reflexivity].
    exfalso. apply Hkey, Hst. rewrite Hl. eauto. }
  rewrite Copy2_extractTiffExifData_eq.
  repeat split; apply Hnone.
  - exact (P_extractExifData keysWithin Hn Hs He dataView).
  - exact (P_extractTiffExifData keysWithin Hn Hs He dataView).
  - exact (P_Copy2_extractExifData keysWithin Hn Hs He dataView).
  - exact (P_extractTiffExifData keysWithin Hn Hs He dataView).
Qed.

Lemma result_keys_are_known_witness :
  extractExifData jpegOddMarker !! "detected" = None /\
  extractTiffExifData jpegOddMarker !! "detected" = None /\
  Copy2.extractExifData jpegOddMarker !! "detected" = None /\
  Copy2.extractTiffExifData jpegOddMarker !! "detected" = None.
Proof.
  apply (result_keys_are_known jpegOddMarker "detected").
  unfold exifKeys, registryNames. intros H.
  repeat (apply elem_of_cons in H as [H|H]; [discriminate H|]).
  now apply elem_of_nil in H.
Defined.

(** ** The header fields of the bare TIFF result *)

Lemma getUint16_short (dataView : DataView) (off : Z) (le : bool) :
  getUint16 dataView off le = RangeError <-> inView dataView off 2 = false.
Proof.
  unfold getUint16. destruct (inView dataView off 2); split; congruence.
Qed.

(** X4. The result of the bare TIFF path is never empty.  A buffer shorter
    than two bytes gives the error note alone.  Otherwise [byteOrder] is
    present and names big-endian exactly when the first two bytes are [MM].
    [format] is present, with the value [Valid TIFF], exactly when the magic
    number read is 42, and the error [Invalid TIFF magic number] is present
    exactly when a magic number was read and is not 42. *)
Theorem tiff_header_fields (dataView : DataView) :
  extractTiffExifData dataView <> ∅ /\
  (byteLength dataView < 2 ->
   extractTiffExifData dataView
   = {[ "error" := JStr "Failed to parse TIFF EXIF data" ]}) /\
  (2 <= byteLength dataView ->
   exists byteOrder,
     getUint16 dataView 0 false = Ok byteOrder /\
     extractTiffExifData dataView !! "byteOrder"
     = Some (JStr (tiffByteOrderName (byteOrder =? 0x4D4D)))) /\
  (extractTiffExifData dataView !! "format" = Some (JStr "Valid TIFF") <->
   exists byteOrder,
     getUint16 dataView 0 false = Ok byteOrder /\
     readUint16Value dataView 2 (byteOrder =? 0x4D4D) = Ok 42) /\
  (is_Some (extractTiffExifData dataView !! "format") ->
   extractTiffExifData dataView !! "format" = Some (JStr "Valid TIFF")) /\
  (extractTiffExifData dataView !! "error"
   = Some (JStr "Invalid TIFF magic number") <->
   exists byteOrder magicNumber,
     getUint16 dataView 0 false = Ok byteOrder /\
     readUint16Value dataView 2 (byteOrder =? 0x4D4D) = Ok magicNumber /\
     magicNumber <> 42).
Proof.
  assert (Hfmt : "format" ∉ registryNames).
  { intros H. now apply registryNames_not_reserved in H as (_ & ? & _). }
  assert (Herr : "error" ∉ registryNames).
  { intros H. now apply registryNames_not_reserved in H as (_ & _ & ?). }
  unfold extractTiffExifData, extractTiffExifData_state, readUint16Value,
    tryRead.
  destruct (getUint16 dataView 0 false) as [byteOrder|] eqn:Hbo.
  - pose proof (getUint16_inView _ _ _ _ Hbo) as Hin.
    apply inView_spec in Hin.
    set (be := byteOrder =? 19789).
    set (st1 := setProp "byteOrder" (JStr (tiffByteOrderName be)) newState).
    assert (Hbo1 : forall o : Outcome,
               exifData (finalState o) !! "byteOrder"
               = Some (JStr (tiffByteOrderName be)) ->
               exifData (catchError "Failed to parse TIFF EXIF data" o)
               <> ∅ /\
               (byteLength dataView < 2 ->
                exifData (catchError "Failed to parse TIFF EXIF data" o)
                = {[ "error" := JStr "Failed to parse TIFF EXIF data" ]}) /\
               (2 <= byteLength dataView ->
                exists byteOrder0,
                  Ok byteOrder = Ok byteOrder0 /\
                  exifData (catchError "Failed to parse TIFF EXIF data" o)
                    !! "byteOrder"
                  = Some (JStr (tiffByteOrderName (byteOrder0 =? 19789))))).
    { intros o Ho.
      assert (Hb : exifData (catchError "Failed to parse TIFF EXIF data" o)
                     !! "byteOrder" = Some (JStr (tiffByteOrderName be))).
      { rewrite catchError_other_keys by discriminate. exact Ho. }
      split; [|split].
      - intros E. rewrite E, lookup_empty in Hb. discriminate.
      - lia.
      - intros _. exists byteOrder. auto. }
    destruct (if be then getUint16 dataView 2 false else _)
      as [magicNumber|] eqn:Hmagic.
    + destruct (Z.eqb_spec magicNumber 42) as [->|Hne].
      * set (st2 := setProp "format" (JStr "Valid TIFF") st1).
        set (o := match (if be then getUint32 dataView 4 false
                         else getUint32 dataView 4 true) with
                  | Ok a => parseIfd dataView a 0 be st2
                  | RangeError => Raised st2
                  end).
        assert (Hkeep : forall key, key ∉ registryNames ->
                  exifData (finalState o) !! key = exifData st2 !! key).
        { intros key Hkey. unfold o.
          destruct (if be then getUint32 dataView 4 false else _);
            [now apply parseIfd_other_keys | reflexivity]. }
        assert (Hf : exifData (catchError "Failed to parse TIFF EXIF data" o)
                       !! "format" = Some (JStr "Valid TIFF")).
        { rewrite catchError_other_keys by discriminate.
          rewrite Hkeep by assumption. reflexivity. }
        assert (He : exifData (catchError "Failed to parse TIFF EXIF data" o)
                       !! "error"
                     <> Some (JStr "Invalid TIFF magic number")).
        { pose proof (Hkeep "error" Herr) as Hk. clearbody o.
          destruct o as [st|st]; cbn [catchError finalState] in *.
          - rewrite Hk. unfold st2, st1. cbn [setProp exifData newState].
            rewrite !lookup_insert_ne, lookup_empty by discriminate.
            discriminate.
          - cbn [setProp exifData]. rewrite lookup_insert_eq. discriminate. }
        destruct (Hbo1 o) as (H1 & H2 & H3).
        { rewrite Hkeep by apply byteOrder_not_registered. reflexivity. }
        split; [exact H1|]. split; [exact H2|]. split; [exact H3|].
        split; [|split].
        -- split; [intros _; eauto | intros _; exact Hf].
        -- intros _. exact Hf.
        -- split; [contradiction|].
           intros (bo & m & [= <-] & Hm & Hne).
           fold be in Hm. rewrite Hm in Hmagic. congruence.
      * destruct (Hbo1 (Normal (setProp "error"
                                  (JStr "Invalid TIFF magic number") st1)))
          as (H1 & H2 & H3); [reflexivity|].
        split; [exact H1|]. split; [exact H2|]. split; [exact H3|].
        split; [|split].
        -- split; [discriminate|].
           intros (bo & [= <-] & Hm). fold be in Hm.
           rewrite Hm in Hmagic. congruence.
        -- intros [v Hv]. discriminate Hv.
        -- split; [intros _; exists byteOrder, magicNumber; auto | reflexivity].
    + destruct (Hbo1 (Raised st1)) as (H1 & H2 & H3); [reflexivity|].
      split; [exact H1|]. split; [exact H2|]. split; [exact H3|].
      split; [|split].
      * split; [discriminate|].
        intros (bo & [= <-] & Hm). fold be in Hm.
        rewrite Hm in Hmagic. discriminate.
      * intros [v Hv]. discriminate Hv.
      * split; [discriminate|].
        intros (bo & m & [= <-] & Hm & _). fold be in Hm.
        rewrite Hm in Hmagic. discriminate.
  - apply getUint16_short, inView_false in Hbo.
    split; [|split; [|split; [|split; [|split]]]].
    + intros E. apply (f_equal (fun m => m !! "error")) in E.
      discriminate E.
    + intros _. reflexivity.
    + unfold byteLength in *. lia.
    + split; [discriminate|]. intros (bo & Hb & _). discriminate.
    + intros [v Hv]. discriminate Hv.
    + split; [discriminate|]. intros (bo & m & Hb & _). discriminate.
Qed.

Lemma tiff_header_fields_witness :
  extractTiffExifData [x49] = {[ "error" := JStr "Failed to parse TIFF EXIF data" ]} /\
  extractTiffExifData tiffAcme !! "format" = Some (JStr "Valid TIFF").
Proof.
  split.
  - destruct (tiff_header_fields [x49]) as (_ & H & _).
    apply H. reflexivity.
  - destruct (tiff_header_fields tiffAcme) as (_ & _ & _ & H & _).
    apply H. exists 0x4949. split; reflexivity.
Defined.

(** ** The search for the Exif header *)

Section HeaderSearch.

Variable dataView : DataView.

Lemma markerIndex_of_bytes (i : Z) :
  0 <= i -> i + 1 < byteLength dataView ->
  (byteAt dataView i =? 0xFF) && (byteAt dataView (i + 1) =? 0xE1) = true ->
  markerIndex dataView i.
Proof.
  intros Hlo Hhi H. apply andb_true_iff in H as [H0 H1].
  apply Z.eqb_eq in H0, H1. unfold markerIndex. auto.
Qed.

Lemma findExifMarker_loop_cases (n : nat) :
  forall i : Z,
    0 <= i -> i + Z.of_nat n <= Z.max i (byteLength dataView - 1) ->
    match findExifMarker_loop dataView n i with
    | Ok h =>
        (h = -1 /\
         forall j, i <= j < i + Z.of_nat n -> markerIndex dataView j ->
                   exifSignatureAt dataView (j + 4) = Ok false) \/
        (i <= h - 4 < i + Z.of_nat n /\ markerIndex dataView (h - 4) /\
         exifSignatureAt dataView h = Ok true /\
         forall j, i <= j < h - 4 -> markerIndex dataView j ->
                   exifSignatureAt dataView (j + 4) = Ok false)
    | RangeError =>
        exists m, i <= m < i + Z.of_nat n /\ markerIndex dataView m /\
                  exifSignatureAt dataView (m + 4) = RangeError /\
                  forall j, i <= j < m -> markerIndex dataView j ->
                            exifSignatureAt dataView (j + 4) = Ok false
    end.
Proof.
  induction n as [|n IH]; intros i Hlo Hhi.
  - cbn. left. split; [reflexivity|]. intros j Hj. lia.
  - cbn [findExifMarker_loop].
    rewrite markerAt_in_range by lia.
    specialize (IH (i + 1)).
    destruct ((byteAt dataView i =? 255) && (byteAt dataView (i + 1) =? 225))
      eqn:Hm; cbn [bindR].
    + pose proof (markerIndex_of_bytes i Hlo ltac:(lia) Hm) as Hmark.
      destruct (exifSignatureAt dataView (i + 4)) as [[|]|] eqn:Hsig;
        cbn [bindR].
      * right. replace (i + 4 - 4) with i by lia.
        split; [lia|]. split; [exact Hmark|]. split; [exact Hsig|].
        intros j Hj. lia.
      * destruct (findExifMarker_loop dataView n (i + 1)) as [h|];
          [destruct IH as [[-> Hall]|(Hr & Hmk & Hs & Hall)]; try lia|
           destruct IH as (m & Hr & Hmk & Hs & Hall); try lia].
        -- left. split; [reflexivity|]. intros j Hj Hj'.
           destruct (Z.eq_dec j i) as [->|]; [exact Hsig|]. apply Hall; [lia|auto].
        -- right. split; [lia|]. split; [exact Hmk|]. split; [exact Hs|].
           intros j Hj Hj'.
           destruct (Z.eq_dec j i) as [->|]; [exact Hsig|]. apply Hall; [lia|auto].
        -- exists m. split; [lia|]. split; [exact Hmk|]. split; [exact Hs|].
           intros j Hj Hj'.
           destruct (Z.eq_dec j i) as [->|]; [exact Hsig|]. apply Hall; [lia|auto].
      * exists i. split; [lia|]. split; [exact Hmark|]. split; [exact Hsig|].
        intros j Hj. lia.
    + assert (Hno : ~ markerIndex dataView i).
      { intros (_ & _ & H0 & H1). rewrite H0, H1 in Hm. discriminate. }
      destruct (findExifMarker_loop dataView n (i + 1)) as [h|];
        [destruct IH as [[-> Hall]|(Hr & Hmk & Hs & Hall)]; try lia|
         destruct IH as (m & Hr & Hmk & Hs & Hall); try lia].
      * left. split; [reflexivity|]. intros j Hj Hj'.
        destruct (Z.eq_dec j i) as [->|]; [contradiction|]. apply Hall; [lia|auto].
      * right. split; [lia|]. split; [exact Hmk|]. split; [exact Hs|].
           intros j Hj Hj'.
        destruct (Z.eq_dec j i) as [->|]; [contradiction|]. apply Hall; [lia|auto].
      * exists m. split; [lia|]. split; [exact Hmk|]. split; [exact Hs|].
           intros j Hj Hj'.
        destruct (Z.eq_dec j i) as [->|]; [contradiction|]. apply Hall; [lia|auto].
Qed.

Lemma markerIndex_range (j : Z) :
  markerIndex dataView j -> 0 <= j < byteLength dataView - 1.
Proof. intros (? & ? & _). lia. Qed.

Lemma findExifMarker_scanResult : scanResult dataView (findExifMarker dataView).
Proof.
  unfold findExifMarker.
  pose proof (findExifMarker_loop_cases
                (Z.to_nat (byteLength dataView - 1)) 0 ltac:(lia) ltac:(lia))
    as H.
  destruct (findExifMarker_loop dataView _ 0) as [h|]; cbn [scanResult].
  - destruct H as [[-> Hall]|(Hr & Hmk & Hs & Hall)].
    + left. split; [reflexivity|]. intros j Hj. apply Hall; [|exact Hj].
      apply markerIndex_range in Hj. lia.
    + right. split; [lia|]. split; [exact Hmk|].
      split; [now apply exifSignatureAt_true_iff|].
      intros j Hj Hj'. apply Hall; [|exact Hj'].
      apply markerIndex_range in Hj'. lia.
  - destruct H as (m & Hr & Hmk & Hs & Hall).
    exists m. split; [exact Hmk|]. split; [exact Hs|].
    intros j Hj Hj'. apply Hall; [|exact Hj'].
    apply markerIndex_range in Hj'. lia.
Qed.

(** At most one marker is the first whose signature test does not answer no. *)
Lemma decisive_marker_unique (m1 m2 : Z) :
  markerIndex dataView m1 -> exifSignatureAt dataView (m1 + 4) <> Ok false ->
  unsignedBefore dataView m1 ->
  markerIndex dataView m2 -> exifSignatureAt dataView (m2 + 4) <> Ok false ->
  unsignedBefore dataView m2 ->
  m1 = m2.
Proof.
  intros Hm1 Hs1 Hu1 Hm2 Hs2 Hu2.
  destruct (Z.lt_trichotomy m1 m2) as [Hlt|[Heq|Hgt]]; [|exact Heq|].
  - exfalso. apply Hs1. now apply Hu2.
  - exfalso. apply Hs2. now apply Hu1.
Qed.

Lemma scanResult_functional (r r' : result Z) :
  scanResult dataView r -> scanResult dataView r' -> r = r'.
Proof.
  assert (Hsigned : forall h, exifSignatureBytes dataView h ->
                              exifSignatureAt dataView h = Ok true)
    by (intros h; apply exifSignatureAt_true_iff).
  destruct r as [h|], r' as [h'|]; cbn [scanResult].
  - intros [[-> Hall]|(Hne & Hm & Hs & Hu)] [[-> Hall']|(Hne' & Hm' & Hs' & Hu')].
    + reflexivity.
    + apply Hsigned in Hs'. replace h' with (h' - 4 + 4) in Hs' by lia.
      rewrite (Hall _ Hm') in Hs'. discriminate.
    + apply Hsigned in Hs. replace h with (h - 4 + 4) in Hs by lia.
      rewrite (Hall' _ Hm) in Hs. discriminate.
    + apply Hsigned in Hs, Hs'.
      f_equal. enough (h - 4 = h' - 4) by lia.
      apply decisive_marker_unique; auto.
      * replace (h - 4 + 4) with h by lia. congruence.
      * replace (h' - 4 + 4) with h' by lia. congruence.
  - intros [[-> Hall]|(Hne & Hm & Hs & Hu)] (m & Hm' & Hs' & Hu').
    + rewrite (Hall _ Hm') in Hs'. discriminate.
    + apply Hsigned in Hs. exfalso.
      assert (h - 4 = m).
      { apply decisive_marker_unique; auto.
        - replace (h - 4 + 4) with h by lia. congruence.
        - congruence. }
      subst m. replace (h - 4 + 4) with h in Hs' by lia. congruence.
  - intros (m & Hm' & Hs' & Hu') [[-> Hall]|(Hne & Hm & Hs & Hu)].
    + rewrite (Hall _ Hm') in Hs'. discriminate.
    + apply Hsigned in Hs. exfalso.
      assert (h' - 4 = m).
      { apply decisive_marker_unique; auto.
        - replace (h' - 4 + 4) with h' by lia. congruence.
        - congruence. }
      subst m. replace (h' - 4 + 4) with h' in Hs' by lia. congruence.
  - reflexivity.
Qed.

(** Either no marker occurs, or there is a first one. *)
Lemma first_marker_or_none :
  (forall j, ~ markerIndex dataView j) \/ exists m, firstMarker dataView m.
Proof.
  assert (Hdec : forall j, markerIndex dataView j \/ ~ markerIndex dataView j).
  { intros j. unfold markerIndex.
    destruct (Z_le_gt_dec 0 j); [|right; lia].
    destruct (Z_lt_ge_dec (j + 1) (byteLength dataView)); [|right; lia].
    destruct (Z.eq_dec (byteAt dataView j) 255); [|right; tauto].
    destruct (Z.eq_dec (byteAt dataView (j + 1)) 225); [|right; tauto].
    left. auto. }
  assert (Hbound : forall n : nat,
             (forall j, j < Z.of_nat n -> ~ markerIndex dataView j) \/
             exists m, firstMarker dataView m).
  { induction n as [|n [IH|IH]]; [| |right; exact IH].
    - left. intros j Hj (Hlo & _). lia.
    - destruct (Hdec (Z.of_nat n)) as [Hm|Hm].
      + right. exists (Z.of_nat n). split; [exact Hm | exact IH].
      + left. intros j Hj. destruct (Z.eq_dec j (Z.of_nat n)) as [->|];
          [exact Hm | apply IH; lia]. }
  destruct (Hbound (length dataView)) as [Hno|Hm]; [left|right; exact Hm].
  intros j Hj. apply (Hno j); [|exact Hj].
  apply markerIndex_range in Hj. unfold byteLength in Hj. lia.
Qed.

End HeaderSearch.

(** X5. The search of the first copy returns the header offset [m + 4] behind
    the first marker [m] whose signature test does not answer no, when the
    six bytes there are the signature; it raises when that test reads past
    the end of the buffer; and it returns [-1] exactly when every marker's
    signature test answers no.  It has no other result. *)
Theorem findExifMarker_result (dataView : DataView) (r : result Z) :
  findExifMarker dataView = r <-> scanResult dataView r.
Proof.
  split.
  - intros <-. apply findExifMarker_scanResult.
  - intros H. eapply scanResult_functional;
      [apply findExifMarker_scanResult | exact H].
Qed.

Lemma findExifMarker_result_witness : scanResult jpegTwoSegments (Ok 16).
Proof.
  apply (findExifMarker_result jpegTwoSegments (Ok 16)). reflexivity.
Defined.

Lemma decodeExifAt_not_empty (dataView : DataView) (h : Z) :
  exifData (catchError "Failed to parse EXIF data"
              (decodeExifAt dataView h newState)) <> ∅.
Proof.
  unfold decodeExifAt, tryRead.
  destruct (getUint16 dataView (h + 6) false) as [marker|].
  - intros E. apply (f_equal (fun m => m !! "byteOrder")) in E.
    rewrite catchError_other_keys, lookup_empty in E by discriminate.
    destruct (if marker =? 19789 then _ else _).
    + rewrite parseIfd_other_keys in E by apply byteOrder_not_registered.
      cbn in E. rewrite lookup_insert_eq in E. discriminate.
    + cbn in E. rewrite lookup_insert_eq in E. discriminate.
  - intros E. apply (f_equal (fun m => m !! "error")) in E.
    discriminate E.
Qed.

(** X6. The JPEG path of the first copy returns the empty mapping exactly
    when every marker's signature test answers no (in particular when there
    is no marker); the second copy returns it exactly when the first marker,
    if there is one, fails the test. *)
Theorem jpeg_result_empty (dataView : DataView) :
  (extractExifData dataView = ∅ <->
   forall j, markerIndex dataView j ->
             exifSignatureAt dataView (j + 4) = Ok false) /\
  (Copy2.extractExifData dataView = ∅ <->
   forall m, firstMarker dataView m ->
             exifSignatureAt dataView (m + 4) = Ok false).
Proof.
  split.
  - pose proof (findExifMarker_scanResult dataView) as Hscan.
    unfold extractExifData, extractExifData_state, tryRead.
    destruct (findExifMarker dataView) as [h|]; cbn [scanResult] in Hscan.
    + destruct Hscan as [[-> Hall]|(Hne & Hm & Hs & Hu)].
      * split; [intros _; exact Hall | reflexivity].
      * destruct (Z.eqb_spec h (-1)); [contradiction|]. cbn [negb].
        split.
        -- intros E. now apply decodeExifAt_not_empty in E.
        -- intros Hall. apply exifSignatureAt_true_iff in Hs.
           replace h with (h - 4 + 4) in Hs by lia.
           rewrite (Hall _ Hm) in Hs. discriminate.
    + destruct Hscan as (m & Hm & Hs & Hu). split.
      * intros E. apply (f_equal (fun m => m !! "error")) in E.
        discriminate E.
      * intros Hall. rewrite (Hall _ Hm) in Hs. discriminate.
  - unfold Copy2.extractExifData, Copy2.extractExifData_state.
    destruct (first_marker_or_none dataView) as [Hno|[m Hm]].
    + destruct (scan_length_none dataView Hno) as [_ H]. rewrite H.
      split; [|reflexivity]. intros _ m [Hm _]. now apply Hno in Hm.
    + rewrite (Copy2_loop_first dataView m newState Hm).
      pose proof Hm as [(Hlo & _) _].
      assert (Huniq : forall m', firstMarker dataView m' -> m' = m).
      { intros m' [Hm' Hf']. destruct Hm as [Hmk Hf].
        destruct (Z.lt_trichotomy m' m) as [Hlt|[Heq|Hgt]]; [|exact Heq|].
        - now apply Hf in Hlt.
        - now apply Hf' in Hgt. }
      destruct (exifSignatureAt dataView (m + 4)) as [[|]|] eqn:Hsig.
      * rewrite Copy2_decodeSegmentAt_signed by assumption.
        split.
        -- intros E. now apply decodeExifAt_not_empty in E.
        -- intros Hall. rewrite (Hall m Hm) in Hsig. discriminate.
      * split.
        -- intros _ m' Hm'. rewrite (Huniq m' Hm'). exact Hsig.
        -- intros _. unfold Copy2.decodeSegmentAt, tryRead.
           pose proof (exifSignatureAt_inView _ _ _ Hsig) as Hin.
           destruct (getUint16_total dataView (m + 2) false) as [len ->].
           { apply inView_spec in Hin. apply inView_spec. lia. }
           rewrite Hsig. reflexivity.
      * rewrite Copy2_decodeSegmentAt_raises by assumption. split.
        -- intros E. apply (f_equal (fun m => m !! "error")) in E.
           discriminate E.
        -- intros Hall. rewrite (Hall m Hm) in Hsig. discriminate.
Qed.

Lemma jpeg_result_empty_witness : extractExifData [xff; xd8; xff; xd9] = ∅.
Proof.
  destruct (jpeg_result_empty [xff; xd8; xff; xd9]) as [[_ H] _].
  apply H. intros j (Hlo & Hhi & H0 & H1). exfalso.
  change (byteLength [xff; xd8; xff; xd9]) with 4 in Hhi.
  assert (j = 0 \/ j = 1 \/ j = 2) as [-> | [-> | ->]] by lia;
    vm_compute in H0, H1; discriminate.
Defined.

(** ** The walker under a move of the TIFF sub-stream *)

Section Shift.

Variables pre dataView : DataView.

Let L := byteLength pre.

Lemma byteLength_app : byteLength (pre ++ dataView) = L + byteLength dataView.
Proof. unfold L, byteLength. rewrite length_app. lia. Qed.

Lemma byteAt_shift (off : Z) :
  0 <= off -> byteAt (pre ++ dataView) (L + off) = byteAt dataView off.
Proof.
  intros H. unfold byteAt, L, byteLength.
  rewrite lookup_app_r by lia.
  replace (Z.to_nat (Z.of_nat (length pre) + off) - length pre)%nat
    with (Z.to_nat off) by lia.
  reflexivity.
Qed.

Lemma inView_shift (off w : Z) :
  0 <= off -> inView (pre ++ dataView) (L + off) w = inView dataView off w.
Proof.
  intros H. unfold inView. rewrite byteLength_app.
  assert (0 <= L) by (unfold L, byteLength; lia).
  destruct (Z.leb_spec 0 (L + off)), (Z.leb_spec 0 off); try lia;
    destruct (Z.leb_spec (L + off + w) (L + byteLength dataView)),
      (Z.leb_spec (off + w) (byteLength dataView)); try lia; reflexivity.
Qed.

Lemma getUint8_shift (off : Z) :
  0 <= off -> getUint8 (pre ++ dataView) (L + off) = getUint8 dataView off.
Proof.
  intros H. unfold getUint8. now rewrite inView_shift, byteAt_shift.
Qed.

Lemma getUint16_shift (off : Z) (le : bool) :
  0 <= off ->
  getUint16 (pre ++ dataView) (L + off) le = getUint16 dataView off le.
Proof.
  intros H. unfold getUint16. rewrite inView_shift by lia.
  rewrite <- !Z.add_assoc, !byteAt_shift by lia. reflexivity.
Qed.

Lemma getUint32_shift (off : Z) (le : bool) :
  0 <= off ->
  getUint32 (pre ++ dataView) (L + off) le = getUint32 dataView off le.
Proof.
  intros H. unfold getUint32. rewrite inView_shift by lia.
  rewrite <- !Z.add_assoc, !byteAt_shift by lia. reflexivity.
Qed.

Lemma readUint16Value_shift (off : Z) (be : bool) :
  0 <= off ->
  readUint16Value (pre ++ dataView) (L + off) be
  = readUint16Value dataView off be.
Proof.
  intros H. unfold readUint16Value. now rewrite !getUint16_shift.
Qed.

Lemma readUint32Value_shift (off : Z) (be : bool) :
  0 <= off ->
  readUint32Value (pre ++ dataView) (L + off) be
  = readUint32Value dataView off be.
Proof.
  intros H. unfold readUint32Value. now rewrite !getUint32_shift.
Qed.

Lemma readAsciiString_loop_shift (offset : Z) (n : nat) :
  forall (i : Z) (str : string),
    0 <= offset + i ->
    readAsciiString_loop (pre ++ dataView) (L + offset) n i str
    = readAsciiString_loop dataView offset n i str.
Proof.
  induction n as [|n IH]; intros i str H; cbn [readAsciiString_loop];
    [reflexivity|].
  rewrite <- Z.add_assoc, getUint8_shift by lia.
  destruct (getUint8 dataView (offset + i)); cbn [bindR]; [|reflexivity].
  apply IH. lia.
Qed.

Lemma calculateActualOffset_shift (valueOffset type count tiffOffset : Z)
    (be : bool) :
  0 <= valueOffset ->
  calculateActualOffset (pre ++ dataView) (L + valueOffset) type count
    (L + tiffOffset) be
  = let* a := calculateActualOffset dataView valueOffset type count
                tiffOffset be in
    Ok (L + a).
Proof.
  intros H. unfold calculateActualOffset.
  destruct (_ >? 4); [|reflexivity].
  change (if be then getUint32 ?d ?o false else getUint32 ?d ?o true)
    with (readUint32Value d o be).
  rewrite readUint32Value_shift by lia.
  destruct (readUint32Value dataView valueOffset be); cbn [bindR];
    [|reflexivity].
  f_equal. lia.
Qed.

Lemma getTagValue_shift (valueOffset type count tiffOffset : Z) (be : bool) :
  0 <= valueOffset -> 0 <= tiffOffset ->
  getTagValue (pre ++ dataView) (L + valueOffset) type count
    (L + tiffOffset) be
  = getTagValue dataView valueOffset type count tiffOffset be.
Proof.
  intros Hv Ht. unfold getTagValue.
  rewrite calculateActualOffset_shift by lia.
  destruct (calculateActualOffset dataView valueOffset type count tiffOffset be)
    as [a|] eqn:Ha; cbn [bindR]; [|reflexivity].
  pose proof (calculateActualOffset_nonneg _ _ _ _ _ _ _ Hv Ht Ha) as Hnn.
  unfold readAsciiString, readRationalValue.
  rewrite getUint8_shift, readUint16Value_shift, readUint32Value_shift,
    readAsciiString_loop_shift by lia.
  rewrite <- Z.add_assoc, readUint32Value_shift by lia.
  reflexivity.
Qed.

Lemma tagsAgree_enter (tagOffset : Z) (st st' : State) :
  tagsAgree L st st' ->
  tagsAgree L (enterEntry (L + tagOffset) st) (enterEntry tagOffset st').
Proof.
  intros [Hd Hp]. split; [exact Hd|].
  cbn [enterEntry processed]. rewrite fmap_app, Hp. reflexivity.
Qed.

Lemma tagsAgree_set (key : string) (v : JsValue) (st st' : State) :
  tagsAgree L st st' -> tagsAgree L (setProp key v st) (setProp key v st').
Proof.
  intros [Hd Hp]. split; [|exact Hp].
  intros name Hname. cbn [setProp exifData].
  rewrite !lookup_insert. case_decide; [reflexivity | now apply Hd].
Qed.

Lemma processIfdEntry_shift (tagOffset tiffOffset : Z) (be : bool)
    (st st' : State) :
  0 <= tagOffset -> 0 <= tiffOffset -> tagsAgree L st st' ->
  outcomesAgree L
    (processIfdEntry (pre ++ dataView) (L + tagOffset) (L + tiffOffset) be st)
    (processIfdEntry dataView tagOffset tiffOffset be st').
Proof.
  intros Hto Ht Hst. unfold processIfdEntry, tryRead.
  change (if be then getUint16 ?d ?o false else getUint16 ?d ?o true)
    with (readUint16Value d o be).
  change (if be then getUint32 ?d ?o false else getUint32 ?d ?o true)
    with (readUint32Value d o be).
  rewrite <- !Z.add_assoc.
  pose proof (tagsAgree_enter tagOffset st st' Hst) as He.
  rewrite readUint16Value_shift by lia.
  destruct (readUint16Value dataView tagOffset be) as [tag|];
    cbv beta iota; [|exact He].
  rewrite readUint16Value_shift by lia.
  destruct (readUint16Value dataView (tagOffset + 2) be) as [type|];
    cbv beta iota; [|exact He].
  rewrite readUint32Value_shift by lia.
  destruct (readUint32Value dataView (tagOffset + 4) be) as [count|];
    cbv beta iota; [|exact He].
  destruct (EXIF_TAGS !! tag) as [name|]; cbv beta iota; [|exact He].
  rewrite getTagValue_shift by lia.
  destruct (getTagValue dataView (tagOffset + 8) type count tiffOffset be);
    cbv beta iota; [|exact He].
  now apply tagsAgree_set.
Qed.

Lemma parseIfd_loop_shift (ifdOffset tiffOffset : Z) (be : bool) (n : nat) :
  forall (i : Z) (st st' : State),
    0 <= ifdOffset -> 0 <= tiffOffset -> 0 <= i -> tagsAgree L st st' ->
    outcomesAgree L
      (parseIfd_loop (pre ++ dataView) (L + ifdOffset) (L + tiffOffset) be
         n i st)
      (parseIfd_loop dataView ifdOffset tiffOffset be n i st').
Proof.
  induction n as [|n IH]; intros i st st' Hi Ht Hlo Hst;
    cbn [parseIfd_loop]; [exact Hst|].
  replace (L + ifdOffset + 2 + i * 12) with (L + (ifdOffset + 2 + i * 12))
    by lia.
  pose proof (processIfdEntry_shift (ifdOffset + 2 + i * 12) tiffOffset be
                st st' ltac:(lia) Ht Hst) as Hp.
  destruct (processIfdEntry (pre ++ dataView) _ _ _ _) as [s1|s1],
    (processIfdEntry dataView _ _ _ _) as [s1'|s1'];
    cbn [outcomesAgree] in Hp; try contradiction.
  - apply IH; auto. lia.
  - exact Hp.
Qed.

Lemma parseIfd_shift (ifdOffset tiffOffset : Z) (be : bool) (st st' : State) :
  0 <= ifdOffset -> 0 <= tiffOffset -> tagsAgree L st st' ->
  outcomesAgree L
    (parseIfd (pre ++ dataView) (L + ifdOffset) (L + tiffOffset) be st)
    (parseIfd dataView ifdOffset tiffOffset be st').
Proof.
  intros Hi Ht Hst. unfold parseIfd, tryRead.
  change (if be then getUint16 ?d ?o false else getUint16 ?d ?o true)
    with (readUint16Value d o be).
  rewrite readUint16Value_shift by lia.
  destruct (readUint16Value dataView ifdOffset be); cbn [outcomesAgree];
    [|exact Hst].
  apply parseIfd_loop_shift; auto. lia.
Qed.

End Shift.

(** X7. The walker does not depend on where the TIFF sub-stream sits.  Put
    any bytes [pre] in front of a buffer and move the IFD offset and the TIFF
    base by their number: the walker ends the same way (normally or raising),
    with the same result object, having visited the same entries moved by
    that number. *)
Theorem walker_position_independent (pre dataView : DataView)
    (ifdOffset tiffOffset : Z) (isBigEndian : bool) (st st' : State) :
  0 <= ifdOffset -> 0 <= tiffOffset ->
  shiftedState (byteLength pre) st st' ->
  shiftedOutcome (byteLength pre)
    (parseIfd (pre ++ dataView) (byteLength pre + ifdOffset)
       (byteLength pre + tiffOffset) isBigEndian st)
    (parseIfd dataView ifdOffset tiffOffset isBigEndian st').
Proof.
  intros Hi Ht [Hd Hp].
  pose proof (parseIfd_shift pre dataView ifdOffset tiffOffset isBigEndian
                st st' Hi Ht) as H.
  specialize (H (conj (fun name _ => f_equal (fun m => m !! name) Hd) Hp)).
  pose proof (fun key Hk =>
                parseIfd_other_keys (pre ++ dataView) (byteLength pre + ifdOffset)
                  (byteLength pre + tiffOffset) isBigEndian key st Hk) as Ho.
  pose proof (fun key Hk =>
                parseIfd_other_keys dataView ifdOffset tiffOffset isBigEndian
                  key st' Hk) as Ho'.
  destruct (parseIfd (pre ++ dataView) _ _ _ _) as [s|s],
    (parseIfd dataView _ _ _ _) as [s'|s'];
    cbn [outcomesAgree shiftedOutcome finalState] in *; try contradiction;
    destruct H as [Hr Htr]; (split; [|exact Htr]);
    apply map_eq; intros key;
    (destruct (decide (key ∈ registryNames)) as [Hk|Hk];
     [now apply Hr | now rewrite Ho, Ho', Hd by assumption]).
Qed.

Lemma walker_position_independent_witness :
  shiftedOutcome (byteLength exifPrefix)
    (parseIfd (exifPrefix ++ tiffLetterA) (byteLength exifPrefix + 8)
       (byteLength exifPrefix + 0) false newState)
    (parseIfd tiffLetterA 8 0 false newState).
Proof.
  apply (walker_position_independent exifPrefix tiffLetterA 8 0 false
           newState newState); [lia | lia |].
  split; reflexivity.
Defined.

(** ** An Exif segment and its TIFF sub-stream *)

Lemma catchError_error_None (message : string) (o : Outcome) :
  exifData (finalState o) !! "error" = None ->
  (exifData (catchError message o) !! "error" = None <->
   exists st, o = Normal st).
Proof.
  intros H. destruct o as [st|st]; cbn [catchError finalState] in *.
  - split; [eauto | intros _; exact H].
  - cbn [setProp exifData]. rewrite lookup_insert_eq.
    split; [discriminate | intros [st' Hst']; discriminate].
Qed.

Lemma error_not_registered : "error" ∉ registryNames.
Proof. intros H. now apply registryNames_not_reserved in H as (_ & _ & ?). Qed.

(** X8. When the first copy finds the Exif header of a JPEG stream and the
    bytes behind the signature form a TIFF stream with magic number 42, the
    JPEG path returns every registry tag exactly as the bare TIFF path
    returns it for that sub-stream alone, and the one result carries an error
    note exactly when the other does. *)
Theorem exif_segment_decodes_as_its_tiff (pre tiff : DataView)
    (h byteOrder : Z) :
  findExifMarker (pre ++ tiff) = Ok h -> h <> -1 ->
  h + 6 = byteLength pre ->
  getUint16 tiff 0 false = Ok byteOrder ->
  readUint16Value tiff 2 (byteOrder =? 0x4D4D) = Ok 42 ->
  (forall name, name ∈ registryNames ->
     extractExifData (pre ++ tiff) !! name = extractTiffExifData tiff !! name) /\
  (extractExifData (pre ++ tiff) !! "error" = None <->
   extractTiffExifData tiff !! "error" = None).
Proof.
  intros Hfind Hh Hlen Hbo Hmagic.
  set (be := byteOrder =? 19789) in *.
  set (stJ := setProp "byteOrder" (JStr (byteOrderName be)) newState).
  set (stT := setProp "format" (JStr "Valid TIFF")
                (setProp "byteOrder" (JStr (tiffByteOrderName be)) newState)).
  set (oJ := (let! p := readUint32Value (pre ++ tiff) (byteLength pre + 4) be in
              parseIfd (pre ++ tiff) (byteLength pre + p) (byteLength pre + 0) be)
               stJ).
  set (oT := (let! p := readUint32Value tiff 4 be in parseIfd tiff p 0 be) stT).
  assert (HJ : extractExifData (pre ++ tiff)
               = exifData (catchError "Failed to parse EXIF data" oJ)).
  { unfold extractExifData, extractExifData_state, tryRead at 1.
    rewrite Hfind. destruct (Z.eqb_spec h (-1)); [contradiction|].
    cbn [negb]. unfold decodeExifAt, tryRead at 1.
    rewrite Hlen. replace (byteLength pre) with (byteLength pre + 0) at 1 by lia.
    rewrite getUint16_shift, Hbo by lia. fold be.
    unfold oJ, stJ, readUint32Value, tryRead.
    rewrite !Z.add_0_r. reflexivity. }
  assert (HT : extractTiffExifData tiff
               = exifData (catchError "Failed to parse TIFF EXIF data" oT)).
  { unfold extractTiffExifData, extractTiffExifData_state, tryRead at 1.
    rewrite Hbo. fold be. unfold tryRead at 1.
    unfold readUint16Value in Hmagic. rewrite Hmagic.
    change (42 =? 42) with true. cbv iota.
    unfold oT, stT, readUint32Value, tryRead. reflexivity. }
  assert (Hinit : tagsAgree (byteLength pre) stJ stT).
  { split; [|reflexivity]. intros name Hname.
    apply registryNames_not_reserved in Hname as (Hb & Hf & He).
    unfold stJ, stT. cbn [setProp exifData newState].
    rewrite !lookup_insert_ne by congruence. reflexivity. }
  assert (Hagree : outcomesAgree (byteLength pre) oJ oT).
  { unfold oJ, oT, tryRead. rewrite readUint32Value_shift by lia.
    destruct (readUint32Value tiff 4 be) as [p|] eqn:Hp;
      cbn [outcomesAgree]; [|exact Hinit].
    apply parseIfd_shift; [|lia|exact Hinit].
    unfold readUint32Value in Hp.
    destruct be; apply getUint32_range in Hp; lia. }
  assert (HerrJ : exifData (finalState oJ) !! "error" = None).
  { unfold oJ, tryRead.
    destruct (readUint32Value (pre ++ tiff) (byteLength pre + 4) be);
      [rewrite parseIfd_other_keys by apply error_not_registered|];
      reflexivity. }
  assert (HerrT : exifData (finalState oT) !! "error" = None).
  { unfold oT, tryRead.
    destruct (readUint32Value tiff 4 be);
      [rewrite parseIfd_other_keys by apply error_not_registered|];
      reflexivity. }
  rewrite HJ, HT. clearbody oJ oT. split.
  - intros name Hname.
    pose proof (registryNames_not_reserved name Hname) as (_ & _ & He).
    rewrite !catchError_other_keys by exact He.
    destruct oJ as [sJ|sJ], oT as [sT|sT]; cbn [outcomesAgree] in Hagree;
      try contradiction; destruct Hagree as [Hr _]; now apply Hr.
  - rewrite !catchError_error_None by assumption.
    destruct oJ as [sJ|sJ], oT as [sT|sT]; cbn [outcomesAgree] in Hagree;
      try contradiction; split; intros [s Hs]; try discriminate; eauto.
Qed.

Lemma exif_segment_decodes_as_its_tiff_witness :
  (forall name, name ∈ registryNames ->
     extractExifData (exifPrefix ++ tiffLetterA) !! name
     = extractTiffExifData tiffLetterA !! name) /\
  (extractExifData (exifPrefix ++ tiffLetterA) !! "error" = None <->
   extractTiffExifData tiffLetterA !! "error" = None).
Proof.
  apply (exif_segment_decodes_as_its_tiff exifPrefix tiffLetterA 4 0x4949);
    [reflexivity | discriminate | reflexivity | reflexivity | reflexivity].
Defined.

(** ** The IPTC presence scan *)

Section IptcScan.

Variable dataView : DataView.

Lemma iptc_test_in_range (i : Z) :
  0 <= i -> i + 1 < byteLength dataView ->
  orElse (markerAt dataView i 0xED) (markerAt dataView i 0xE2)
  = Ok ((byteAt dataView i =? 0xFF)
        && ((byteAt dataView (i + 1) =? 0xED)
            || (byteAt dataView (i + 1) =? 0xE2))).
Proof.
  intros Hlo Hhi. unfold orElse. rewrite !markerAt_in_range by lia.
  cbn [bindR].
  destruct (byteAt dataView i =? 255), (byteAt dataView (i + 1) =? 237),
    (byteAt dataView (i + 1) =? 226); reflexivity.
Qed.

Lemma iptc_test_spec (i : Z) :
  0 <= i -> i + 1 < byteLength dataView ->
  ((byteAt dataView i =? 0xFF)
   && ((byteAt dataView (i + 1) =? 0xED) || (byteAt dataView (i + 1) =? 0xE2))
   = true <-> iptcMarkerIndex dataView i).
Proof.
  intros Hlo Hhi. unfold iptcMarkerIndex.
  rewrite andb_true_iff, orb_true_iff, !Z.eqb_eq. tauto.
Qed.

Lemma findIptcMarkers_loop_spec (n : nat) :
  forall i : Z,
    0 <= i -> i + Z.of_nat n <= Z.max i (byteLength dataView - 1) ->
    exists b,
      findIptcMarkers_loop dataView n i = Ok b /\
      (b = true <->
       exists j, i <= j < i + Z.of_nat n /\ iptcMarkerIndex dataView j).
Proof.
  induction n as [|n IH]; intros i Hlo Hhi.
  - exists false. split; [reflexivity|].
    split; [discriminate|]. intros (j & Hj & _). lia.
  - cbn [findIptcMarkers_loop]. rewrite iptc_test_in_range by lia.
    pose proof (iptc_test_spec i Hlo ltac:(lia)) as Hspec.
    destruct ((byteAt dataView i =? 255) && _) eqn:Ht; cbn [bindR].
    + exists true. split; [reflexivity|]. split; [|reflexivity].
      intros _. exists i. split; [lia|]. now apply Hspec.
    + destruct (IH (i + 1)) as (b & Hb & Hiff); [lia|lia|].
      exists b. split; [exact Hb|]. rewrite Hiff. split.
      * intros (j & Hj & Hm). exists j. split; [lia | exact Hm].
      * intros (j & Hj & Hm). exists j. split; [|exact Hm].
        destruct (Z.eq_dec j i) as [->|]; [|lia].
        apply Hspec in Hm. congruence.
Qed.

Lemma findIptcMarkers_spec :
  exists b,
    findIptcMarkers dataView = Ok b /\
    (b = true <-> exists j, j < 32768 /\ iptcMarkerIndex dataView j).
Proof.
  unfold findIptcMarkers.
  destruct (findIptcMarkers_loop_spec
              (Z.to_nat (Z.min (byteLength dataView - 1) 32768)) 0)
    as (b & Hb & Hiff); [lia|lia|].
  exists b. split; [exact Hb|]. rewrite Hiff. split.
  - intros (j & Hj & Hm). exists j. split; [lia | exact Hm].
  - intros (j & Hj & Hm). exists j. split; [|exact Hm].
    destruct Hm as (Hlo & Hhi & _). lia.
Qed.

Lemma Copy2_iptc_loop (n : nat) :
  forall (i : Z) (st : State),
    Copy2Scan.extractIptcData_loop dataView n i st
    = match findIptcMarkers_loop dataView n i with
      | Ok true =>
          Normal (setProp "note" (JStr iptcDetectedNote)
                    (setProp "detected" (JBool true) st))
      | Ok false => Normal st
      | RangeError => Raised st
      end.
Proof.
  induction n as [|n IH]; intros i st;
    cbn [Copy2Scan.extractIptcData_loop findIptcMarkers_loop];
    [reflexivity|].
  unfold tryRead.
  destruct (orElse _ _) as [[|]|]; cbn [bindR]; [reflexivity|apply IH|
                                                  reflexivity].
Qed.

End IptcScan.

(** X9. The IPTC scan never raises: its result never holds an error note.
    It reports [detected: true] exactly when a byte [0xFF] followed by
    [0xED] or [0xE2] starts at an index below 32768, and has one of two
    fixed shapes. *)
Theorem iptc_scan_result (dataView : DataView) :
  (extractIptcData dataView = iptcFound \/
   extractIptcData dataView = iptcNotFound) /\
  (extractIptcData dataView = iptcFound <->
   exists j, j < 32768 /\ iptcMarkerIndex dataView j) /\
  extractIptcData dataView !! "error" = None.
Proof.
  destruct (findIptcMarkers_spec dataView) as (b & Hb & Hiff).
  unfold extractIptcData. rewrite Hb. rewrite <- Hiff.
  destruct b; fold iptcFound iptcNotFound.
  - split; [now left|]. split; [tauto | reflexivity].
  - split; [now right|]. split; [|reflexivity].
    split; [|discriminate]. intros E.
    apply (f_equal (fun m => m !! "detected")) in E. discriminate E.
Qed.

Lemma iptc_scan_result_witness : extractIptcData jpegWithIptc = iptcFound.
Proof.
  destruct (iptc_scan_result jpegWithIptc) as (_ & [_ H] & _).
  apply H. exists 2. split; [lia|].
  unfold iptcMarkerIndex. repeat split; try reflexivity; try lia.
  left. reflexivity.
Defined.

(** X10. The second copy of the IPTC scan, written as a loop that fills the
    result and a test of the [detected] property afterwards, returns the same
    mapping as the first copy on every buffer. *)
Theorem iptc_copies_agree (dataView : DataView) :
  Copy2Scan.extractIptcData dataView = extractIptcData dataView.
Proof.
  unfold Copy2Scan.extractIptcData, extractIptcData, findIptcMarkers.
  rewrite Copy2_iptc_loop.
  destruct (findIptcMarkers_loop dataView _ 0) as [[|]|]; reflexivity.
Qed.

Lemma byteAt_take (dataView : DataView) (n : nat) (k : Z) :
  0 <= k < Z.of_nat n -> byteAt (take n dataView) k = byteAt dataView k.
Proof.
  intros H. unfold byteAt. rewrite lookup_take_lt by lia. reflexivity.
Qed.

Lemma byteLength_take (dataView : DataView) (n : nat) :
  byteLength (take n dataView) = Z.min (Z.of_nat n) (byteLength dataView).
Proof. unfold byteLength. rewrite length_take. lia. Qed.

(** X11. The IPTC scan looks at the first 32769 bytes only: cutting the
    buffer there never changes its result. *)
Theorem iptc_scan_window (dataView : DataView) :
  extractIptcData (take (Z.to_nat 32769) dataView) = extractIptcData dataView.
Proof.
  destruct (findIptcMarkers_spec dataView) as (b & Hb & Hiff).
  destruct (findIptcMarkers_spec (take (Z.to_nat 32769) dataView))
    as (b' & Hb' & Hiff').
  unfold extractIptcData. rewrite Hb, Hb'.
  assert (Hsame : forall j, j < 32768 ->
            (iptcMarkerIndex (take (Z.to_nat 32769) dataView) j <->
             iptcMarkerIndex dataView j)).
  { intros j Hj. unfold iptcMarkerIndex. rewrite byteLength_take.
    split; intros (Hlo & Hhi & H0 & H1).
    - rewrite !byteAt_take in H0, H1 by lia. repeat split; auto; lia.
    - rewrite !byteAt_take by lia. repeat split; auto; lia. }
  assert (Hbb : b' = true <-> b = true).
  { rewrite Hiff, Hiff'. split; intros (j & Hj & Hm); exists j;
      (split; [exact Hj|]); now apply (Hsame j Hj). }
  destruct b, b'; try reflexivity; exfalso;
    [destruct Hbb as [_ H]|destruct Hbb as [H _]];
    specialize (H eq_refl); discriminate.
Qed.

(** ** The XMP scan, continued *)

Lemma string_of_list_ascii_length (l : list ascii) :
  String.length (string_of_list_ascii l) = length l.
Proof. induction l as [|c l IH]; simpl; [reflexivity | now rewrite IH]. Qed.

(** X12. The XMP scan reads the first 65536 bytes only: the text it searches
    has [min(byteLength, 65536)] characters, and cutting the buffer there
    never changes its result. *)
Theorem xmp_scan_window (arrayBuffer : DataView) :
  Z.of_nat (String.length (convertBufferToString arrayBuffer))
  = Z.min (byteLength arrayBuffer) 65536 /\
  extractXmpData (take (Z.to_nat 65536) arrayBuffer) = extractXmpData arrayBuffer.
Proof.
  split.
  - rewrite convertBufferToString_text, string_of_list_ascii_length,
      length_fmap, length_take.
    unfold byteLength. lia.
  - rewrite !extractXmpData_unfold, !convertBufferToString_text, take_take.
    now rewrite Nat.min_id.
Qed.

(** X13. The second copy of the XMP scan, with the conversion, the packet
    search and the two patterns written out in place, returns the same
    mapping as the first copy on every buffer. *)
Theorem xmp_copies_agree (arrayBuffer : DataView) :
  Copy2Scan.extractXmpData arrayBuffer = extractXmpData arrayBuffer.
Proof.
  rewrite extractXmpData_unfold.
  unfold Copy2Scan.extractXmpData, processXmpPacket, convertBufferToString.
  cbv zeta.
  destruct (negb _ && negb _); [|reflexivity].
  unfold Object_assign, extractXmpMetadata, XMP_TITLE_REGEX_exec,
    XMP_CREATOR_REGEX_exec.
  destruct (JS.execElement "title" _), (JS.execElement "creator" _);
    rewrite <- ?insert_union_l, (left_id_L ∅ (∪)); reflexivity.
Qed.

(** ** What the two patterns capture *)

Lemma spanUntil_spec (stop : ascii) (s : string) :
  forall run rest,
    JS.spanUntil stop s = (run, rest) ->
    s = (run ++ rest)%string /\
    (forall k c, String.get k run = Some c -> c <> stop).
Proof.
  induction s as [|c s IH]; intros run rest; cbn [JS.spanUntil].
  - intros [= <- <-]. split; [reflexivity|]. intros k c' H.
    destruct k; discriminate H.
  - destruct (Ascii.eqb_spec c stop) as [->|Hne].
    + intros [= <- <-]. split; [reflexivity|]. intros k c' H.
      destruct k; discriminate H.
    + destruct (JS.spanUntil stop s) as [run' rest'].
      intros [= <- <-]. destruct (IH run' rest' eq_refl) as [-> Hrun].
      split; [reflexivity|]. intros [|k] c' H; cbn in H.
      * now injection H as <-.
      * eapply Hrun; eauto.
Qed.

Lemma matchLiteral_spec (pat : string) :
  forall s rest,
    JS.matchLiteral pat s = Some rest ->
    exists head, s = (head ++ rest)%string.
Proof.
  induction pat as [|p pat IH]; intros s rest; cbn [JS.matchLiteral].
  - intros [= <-]. exists EmptyString. reflexivity.
  - destruct s as [|c s]; [discriminate|].
    destruct (Ascii.eqb _ _); [|discriminate].
    intros H. destruct (IH _ _ H) as [head ->].
    exists (String c head). reflexivity.
Qed.

Lemma matchElementHere_spec (name s capture : string) :
  JS.matchElementHere name s = Some capture ->
  capture <> EmptyString /\
  (forall k c, String.get k capture = Some c -> c <> "<"%char) /\
  exists i, occursAt capture s i.
Proof.
  unfold JS.matchElementHere.
  destruct (JS.matchLiteral _ s) as [r1|] eqn:H1; [|discriminate].
  destruct (JS.spanUntil ">" r1) as [run r2] eqn:H2.
  destruct r2 as [|c r3]; [discriminate|].
  destruct (JS.spanUntil "<" r3) as [cap r4] eqn:H3.
  destruct cap as [|c0 cap]; [discriminate|].
  destruct (JS.matchLiteral _ r4) as [r5|]; [|discriminate].
  intros [= <-].
  apply matchLiteral_spec in H1 as [head ->].
  apply spanUntil_spec in H2 as [-> _].
  apply spanUntil_spec in H3 as [-> Hcap].
  split; [discriminate|]. split; [exact Hcap|].
  exists (String.length (head ++ run ++ String c EmptyString)).
  exists (head ++ run ++ String c EmptyString)%string, r4.
  split; [|reflexivity].
  rewrite !append_assoc. reflexivity.
Qed.

Lemma occursAt_tail (needle s : string) (c : ascii) (i : nat) :
  occursAt needle s i -> occursAt needle (String c s) (S i).
Proof. apply occursAt_S. Qed.

Lemma execElement_spec (name : string) :
  forall s capture,
    JS.execElement name s = Some capture ->
    capture <> EmptyString /\
    (forall k c, String.get k capture = Some c -> c <> "<"%char) /\
    exists i, occursAt capture s i.
Proof.
  induction s as [|c s IH]; intros capture; cbn [JS.execElement].
  - destruct (JS.matchElementHere name EmptyString) eqn:H; [|discriminate].
    intros [= <-]. now apply matchElementHere_spec in H.
  - destruct (JS.matchElementHere name (String c s)) eqn:H.
    + intros [= <-]. now apply matchElementHere_spec in H.
    + intros H'. destruct (IH _ H') as (Hne & Hlt & i & Hi).
      split; [exact Hne|]. split; [exact Hlt|].
      exists (S i). now apply occursAt_tail.
Qed.

(** X14. The metadata pulled out of an XMP fragment holds no property other
    than [title] and [creator]; each one present is a non-empty string that
    occurs in the fragment and holds no [<] character. *)
Theorem xmp_fields_captured (xmpContent key : string) (v : JsValue) :
  extractXmpMetadata xmpContent !! key = Some v ->
  (key = "title" \/ key = "creator") /\
  exists t,
    v = JStr t /\ t <> EmptyString /\
    (forall k c, String.get k t = Some c -> c <> "<"%char) /\
    exists i, occursAt t xmpContent i.
Proof.
  unfold extractXmpMetadata, XMP_TITLE_REGEX_exec, XMP_CREATOR_REGEX_exec.
  destruct (JS.execElement "title" xmpContent) as [title|] eqn:Ht;
    destruct (JS.execElement "creator" xmpContent) as [creator|] eqn:Hc;
    rewrite ?lookup_insert; repeat case_decide; subst;
    rewrite ?lookup_empty; try discriminate; intros [= <-].
  - split; [now right|]. exists creator. split; [reflexivity|].
    now apply execElement_spec in Hc.
  - split; [now left|]. exists title. split; [reflexivity|].
    now apply execElement_spec in Ht.
  - split; [now left|]. exists title. split; [reflexivity|].
    now apply execElement_spec in Ht.
  - split; [now right|]. exists creator. split; [reflexivity|].
    now apply execElement_spec in Hc.
Qed.

Lemma xmp_fields_captured_witness :
  ("title" = "title" \/ "title" = "creator") /\
  exists t,
    JStr "T" = JStr t /\ t <> EmptyString /\
    (forall k c, String.get k t = Some c -> c <> "<"%char) /\
    exists i, occursAt t "<dc:title>T</dc:title>" i.
Proof.
  apply (xmp_fields_captured "<dc:title>T</dc:title>" "title" (JStr "T")).
  vm_compute. reflexivity.
Defined.

(** ** CSV escaping *)

Lemma occursAt_char_0 (c a : ascii) (s : string) :
  occursAt (String c EmptyString) (String a s) 0 <-> a = c.
Proof.
  rewrite occursAt_0. cbn [String.prefix].
  destruct (ascii_dec c a) as [->|Hne].
  - destruct s; split; auto.
  - split; [discriminate | congruence].
Qed.

Lemma occursAt_char (c : ascii) (s : string) :
  (exists k, occursAt (String c EmptyString) s k) <-> containsChar c s.
Proof.
  unfold containsChar. induction s as [|a s IH].
  - split; intros [k H].
    + destruct k; [apply occursAt_0 in H; discriminate H|
                   now apply occursAt_empty_S in H].
    + destruct k; discriminate H.
  - split; intros [[|k] H].
    + apply occursAt_char_0 in H as ->. exists 0%nat. reflexivity.
    + apply occursAt_S in H.
      destruct (proj1 IH (ex_intro _ k H)) as [k' Hk']. exists (S k'). exact Hk'.
    + cbn in H. injection H as ->. exists 0%nat. now apply occursAt_char_0.
    + cbn in H. destruct (proj2 IH (ex_intro _ k H)) as [k' Hk'].
      exists (S k'). now apply occursAt_S.
Qed.

Lemma String_includes_char (c : ascii) (s : string) :
  String_includes s (String c EmptyString) = true <-> containsChar c s.
Proof.
  unfold String_includes. rewrite <- occursAt_char, <- indexOf_found_iff.
  destruct (Z.eqb_spec (JS.indexOf s (String c EmptyString)) (-1));
    cbn [negb]; split; congruence.
Qed.

Lemma needsQuoting_false (s : string) :
  needsQuoting s = false <-> csvClean s.
Proof.
  unfold needsQuoting, csvClean.
  rewrite !orb_false_iff, <- !String_includes_char, !not_true_iff_false.
  tauto.
Qed.

Lemma doubleQuotes_length (s : string) :
  (String.length s <= String.length (doubleQuotes s))%nat.
Proof.
  induction s as [|c s IH]; cbn [doubleQuotes]; [reflexivity|].
  destruct (Ascii.eqb c quoteChar); cbn [String.length]; lia.
Qed.

(** The quoted body of a field: the doubled text and the closing quote. *)
Lemma quoted_body_inj (s1 : string) :
  forall s2,
    (doubleQuotes s1 ++ String quoteChar EmptyString)%string
    = (doubleQuotes s2 ++ String quoteChar EmptyString)%string ->
    s1 = s2.
Proof.
  induction s1 as [|c1 s1 IH]; intros [|c2 s2]; cbn [doubleQuotes].
  - reflexivity.
  - destruct (Ascii.eqb_spec c2 quoteChar) as [->|Hne];
      rewrite ?append_cons; intros H.
    + change (String.append EmptyString ?t) with t in H.
      injection H as H. destruct (doubleQuotes s2); discriminate H.
    + change (String.append EmptyString ?t) with t in H.
      injection H as H _. congruence.
  - destruct (Ascii.eqb_spec c1 quoteChar) as [->|Hne];
      rewrite ?append_cons; intros H.
    + change (String.append EmptyString ?t) with t in H.
      injection H as H. destruct (doubleQuotes s1); discriminate H.
    + change (String.append EmptyString ?t) with t in H.
      injection H as H _. congruence.
  - destruct (Ascii.eqb_spec c1 quoteChar) as [->|Hne1],
      (Ascii.eqb_spec c2 quoteChar) as [->|Hne2];
      rewrite ?append_cons; intros H.
    + injection H as H. f_equal. now apply IH.
    + injection H as H _. congruence.
    + injection H as H _. congruence.
    + injection H as -> H. f_equal. now apply IH.
Qed.

Lemma quoted_not_clean (body : string) :
  needsQuoting (String quoteChar body) = true.
Proof.
  unfold needsQuoting.
  replace (String_includes (String quoteChar body)
             (String quoteChar EmptyString)) with true.
  - now rewrite orb_true_r.
  - symmetry. apply String_includes_char. exists 0%nat. reflexivity.
Qed.

(** X15. CSV escaping leaves a value alone when it is not a string or holds
    no comma, quote or line feed, and only then: every other string comes
    back between two quotes with each of its quotes doubled, which is a
    different and longer string. *)
Theorem escapeCsvValue_unchanged_iff_clean (s : string) :
  (escapeCsvValue (JStr s) = JStr s <-> csvClean s) /\
  (~ csvClean s ->
   escapeCsvValue (JStr s)
   = JStr (String quoteChar (doubleQuotes s ++ String quoteChar EmptyString)) /\
   (String.length s + 2
    <= String.length
         (String quoteChar (doubleQuotes s ++ String quoteChar EmptyString)))%nat) /\
  (forall v, (forall t, v <> JStr t) -> escapeCsvValue v = v).
Proof.
  assert (Hlen : (String.length s + 2
                  <= String.length
                       (String quoteChar
                          (doubleQuotes s ++ String quoteChar EmptyString)))%nat).
  { cbn [String.length]. rewrite length_append. cbn [String.length].
    pose proof (doubleQuotes_length s). lia. }
  split; [|split].
  - rewrite <- needsQuoting_false. unfold escapeCsvValue.
    destruct (needsQuoting s); split; try reflexivity; try discriminate.
    intros [= H]. rewrite <- H in Hlen at 1. lia.
  - intros Hdirty. split; [|exact Hlen].
    unfold escapeCsvValue. destruct (needsQuoting s) eqn:Hn; [reflexivity|].
    now apply needsQuoting_false in Hn.
  - intros v Hv. destruct v; try reflexivity. now destruct (Hv s0).
Qed.

Lemma escapeCsvValue_unchanged_iff_clean_witness :
  escapeCsvValue (JStr csvComma)
  = JStr (String quoteChar
            (doubleQuotes csvComma ++ String quoteChar EmptyString)) /\
  (String.length csvComma + 2
   <= String.length
        (String quoteChar
           (doubleQuotes csvComma ++ String quoteChar EmptyString)))%nat.
Proof.
  destruct (escapeCsvValue_unchanged_iff_clean csvComma) as (_ & H & _).
  apply H. intros (Hc & _). apply Hc. exists 4%nat. reflexivity.
Defined.

(** X16. On strings CSV escaping is one-to-one: two different strings never
    give the same field. *)
Theorem escapeCsvValue_injective (s1 s2 : string) :
  escapeCsvValue (JStr s1) = escapeCsvValue (JStr s2) -> s1 = s2.
Proof.
  assert (Hmixed : forall s t,
             needsQuoting t = false ->
             JStr (String quoteChar
                     (doubleQuotes s ++ String quoteChar EmptyString))
             = JStr t -> False).
  { intros s t Hclean [= <-]. now rewrite quoted_not_clean in Hclean. }
  cbn [escapeCsvValue].
  destruct (needsQuoting s1) eqn:E1, (needsQuoting s2) eqn:E2; intros H.
  - injection H as H. exact (quoted_body_inj _ _ H).
  - exfalso. exact (Hmixed _ _ E2 H).
  - exfalso. exact (Hmixed _ _ E1 (eq_sym H)).
  - now injection H.
Qed.

Lemma escapeCsvValue_injective_witness : csvComma = csvComma.
Proof. apply (escapeCsvValue_injective csvComma csvComma). reflexivity. Defined.

(** ** The choice of the extraction path *)

(** X17. A file that passes the filter of [handleFiles] has, up to case, one
    of the five supported types, and its path follows from it: [image/jpeg]
    and [image/jpg] take the JPEG path, [image/tiff] the TIFF path, and
    [image/png] and [image/tif] the basic path, so a file of type
    [image/tif] is accepted and not parsed as TIFF. *)
Theorem accepted_type_path (type : string) :
  isValidFile type = true ->
  let fileType := String_toLowerCase type in
  determineExtractionMethod type
  = (if String.eqb fileType "image/jpeg" || String.eqb fileType "image/jpg"
     then "jpeg"
     else if String.eqb fileType "image/tiff" then "tiff"
     else "basic") /\
  (fileType = "image/tif" -> determineExtractionMethod type = "basic").
Proof.
  intros Hvalid. cbv zeta. unfold isValidFile in Hvalid.
  apply bool_decide_eq_true in Hvalid.
  unfold determineExtractionMethod.
  remember (String_toLowerCase type) as fileType eqn:E. clear E.
  unfold supportedMimeTypes in Hvalid.
  repeat (apply elem_of_cons in Hvalid as [Hvalid|Hvalid];
          [rewrite Hvalid; split; [vm_compute; reflexivity|];
           intros H; first [discriminate H | vm_compute; reflexivity]|]).
  now apply elem_of_nil in Hvalid.
Qed.

Lemma accepted_type_path_witness :
  determineExtractionMethod "IMAGE/TIF"
  = (if String.eqb (String_toLowerCase "IMAGE/TIF") "image/jpeg"
        || String.eqb (String_toLowerCase "IMAGE/TIF") "image/jpg"
     then "jpeg"
     else if String.eqb (String_toLowerCase "IMAGE/TIF") "image/tiff"
          then "tiff"
          else "basic") /\
  (String_toLowerCase "IMAGE/TIF" = "image/tif" ->
   determineExtractionMethod "IMAGE/TIF" = "basic").
Proof.
  apply (accepted_type_path "IMAGE/TIF"). vm_compute. reflexivity.
Defined.

(** ** When an ASCII read raises *)

Lemma readAsciiString_loop_Ok_inView (dataView : DataView) (offset : Z)
    (n : nat) :
  forall (i : Z) (str s : string),
    readAsciiString_loop dataView offset n i str = Ok s ->
    n = 0%nat \/
    (0 <= offset + i /\ offset + i + Z.of_nat n <= byteLength dataView).
Proof.
  induction n as [|n IH]; intros i str s; cbn [readAsciiString_loop];
    [now left|].
  destruct (getUint8 dataView (offset + i)) as [c|] eqn:Hc; cbn [bindR];
    [|discriminate].
  apply getUint8_Ok in Hc as [Hin _]. apply inView_spec in Hin.
  intros H. right. destruct (IH _ _ _ H) as [->|Hr]; lia.
Qed.

(** X18. An ASCII read of [n = min(count - 1, 100)] characters raises
    exactly when [n] is positive and one of the [n] bytes from the payload
    offset on lies outside the buffer; otherwise it returns all [n]
    characters.  It never returns a shorter string. *)
Theorem readAsciiString_all_or_nothing (dataView : DataView) (offset count : Z) :
  let n := Z.max 0 (Z.min (count - 1) 100) in
  (readAsciiString dataView offset count = RangeError <->
   0 < n /\ (offset < 0 \/ byteLength dataView < offset + n)) /\
  (forall s, readAsciiString dataView offset count = Ok s ->
             Z.of_nat (String.length s) = n).
Proof.
  intros n. split.
  - split.
    + intros Hraise.
      destruct (Z_lt_le_dec 0 n) as [Hpos|Hzero].
      * split; [exact Hpos|].
        destruct (Z_lt_le_dec offset 0) as [|Hoff]; [now left|].
        destruct (Z_lt_le_dec (byteLength dataView) (offset + n)) as [|Hfit];
          [now right|].
        destruct (readAsciiString_total dataView offset count Hoff Hfit)
          as [s Hs].
        congruence.
      * exfalso. unfold readAsciiString in Hraise.
        replace (Z.to_nat (Z.min (count - 1) 100)) with 0%nat in Hraise
          by (unfold n in Hzero; lia).
        discriminate Hraise.
    + intros [Hpos Hout].
      destruct (readAsciiString dataView offset count) as [s|] eqn:Hs;
        [|reflexivity].
      exfalso. unfold readAsciiString in Hs.
      apply readAsciiString_loop_Ok_inView in Hs as [Hz|Hin];
        unfold n in *; lia.
  - intros s Hs. now apply readAsciiString_Ok in Hs as [Hlen _].
Qed.

Lemma readAsciiString_all_or_nothing_witness :
  readAsciiString tiffAcme 28 5 = RangeError.
Proof.
  destruct (readAsciiString_all_or_nothing tiffAcme 28 5) as [[_ H] _].
  apply H. change (byteLength tiffAcme) with 31. lia.
Defined.

(** ** The two copies, continued *)

(** X19. The tag decoder, the IFD walker and the bare TIFF path of the
    second copy, written without the helper functions, compute the same as
    those of the first copy on every input. *)
Theorem tiff_copies_agree (dataView : DataView) :
  (forall valueOffset type count tiffOffset isBigEndian,
     Copy2.getTagValue dataView valueOffset type count tiffOffset isBigEndian
     = getTagValue dataView valueOffset type count tiffOffset isBigEndian) /\
  (forall ifdOffset tiffOffset isBigEndian st,
     Copy2.parseIfd dataView ifdOffset tiffOffset isBigEndian st
     = parseIfd dataView ifdOffset tiffOffset isBigEndian st) /\
  Copy2.extractTiffExifData_state dataView = extractTiffExifData_state dataView.
Proof.
  split; [intros; apply Copy2_getTagValue_eq|].
  split; [intros; apply Copy2_parseIfd_eq|].
  unfold Copy2.extractTiffExifData_state, extractTiffExifData_state, tryRead.
  destruct (getUint16 dataView 0 false); [|reflexivity].
  destruct (if _ =? _ then getUint16 dataView 2 false else _); [|reflexivity].
  destruct (_ =? 42); [|reflexivity].
  destruct (if _ =? _ then getUint32 dataView 4 false else _); [|reflexivity].
  now rewrite Copy2_parseIfd_eq.
Qed.

(** X20. Whenever the JPEG path of the second copy returns anything at all,
    the first copy returns the same result: the first copy only adds results
    for streams on which the second returns the empty mapping. *)
Theorem first_copy_extends_second (dataView : DataView) :
  Copy2.extractExifData dataView <> ∅ ->
  extractExifData_state dataView = Copy2.extractExifData_state dataView.
Proof.
  intros Hne. symmetry.
  apply copies_agree_unless_first_marker_unsigned.
  destruct (first_marker_or_none dataView) as [Hno|[m Hm]]; [now left|].
  right. exists m. split; [exact Hm|]. intros Hsig. apply Hne.
  unfold Copy2.extractExifData, Copy2.extractExifData_state.
  rewrite (Copy2_loop_first dataView m newState Hm).
  unfold Copy2.decodeSegmentAt, tryRead.
  pose proof Hm as [(Hlo & _) _].
  pose proof (exifSignatureAt_inView _ _ _ Hsig) as Hin.
  destruct (getUint16_total dataView (m + 2) false) as [len ->].
  { apply inView_spec in Hin. apply inView_spec. lia. }
  rewrite Hsig. reflexivity.
Qed.

Lemma first_copy_extends_second_witness :
  extractExifData_state jpegOddMarker = Copy2.extractExifData_state jpegOddMarker.
Proof.
  apply (first_copy_extends_second jpegOddMarker).
  intros H. apply (f_equal (fun m => m !! "byteOrder")) in H.
  vm_compute in H. discriminate H.
Defined.
